(** * file-service: chunked multipart upload, verified against its source

    A shallow embedding of the upload code of the repository
    ([upload.service.ts], [modules.component.ts], [file-upload.service.ts],
    [upload-progress.component.ts]) together with the properties the
    specification states about it.

    Conventions of the embedding.
    - Byte offsets, part numbers and counts are integers ([Z]); the
      operations [+], [-], [*], [Math.min] and [Math.pow] on them are exact.
    - A value produced by the JavaScript division [/] is a [number]: an
      exact rational or one of [Infinity], [-Infinity], [NaN].  Rounding of
      IEEE doubles and the sign of zero are not represented.
    - Asynchronous remote calls are answered from reply queues held in the
      [World]; a call whose queue is empty never resolves ([Pending]). *)

From Stdlib Require Import ZArith QArith Qround List String Ascii Bool Lia.
From Stdlib Require Import DecimalString.
Import ListNotations.

Local Open Scope Z_scope.

(* ===================================================================== *)
(** ** JavaScript numbers *)
(* ===================================================================== *)

Module JS.

Inductive number : Type :=
| Fin (q : Q)
| PInf
| NInf
| NaN.

Definition of_Z (z : Z) : number := Fin (inject_Z z).

Definition Qlt_bool (a b : Q) : bool := negb (Qle_bool b a).

Definition isFinite (x : number) : bool :=
  match x with Fin _ => true | _ => false end.

(** [x < y] *)
Definition lt (x y : number) : bool :=
  match x, y with
  | NaN, _ | _, NaN => false
  | Fin a, Fin b => Qlt_bool a b
  | NInf, NInf => false
  | NInf, _ => true
  | _, NInf => false
  | PInf, _ => false
  | Fin _, PInf => true
  end.

(** [x > y] *)
Definition gt (x y : number) : bool := lt y x.

(** [x >= y] *)
Definition ge (x y : number) : bool :=
  match x, y with
  | NaN, _ | _, NaN => false
  | Fin a, Fin b => Qle_bool b a
  | PInf, _ => true
  | _, NInf => true
  | NInf, _ => false
  | Fin _, PInf => false
  end.

(** [x - y] *)
Definition sub (x y : number) : number :=
  match x, y with
  | NaN, _ | _, NaN => NaN
  | Fin a, Fin b => Fin (a - b)
  | PInf, PInf | NInf, NInf => NaN
  | PInf, _ => PInf
  | NInf, _ => NInf
  | Fin _, PInf => NInf
  | Fin _, NInf => PInf
  end.

(** Sign of an infinite product or quotient: the finite operand is
    non-negative ([true]) or negative ([false]). *)
Definition signed_inf (positive : bool) : number :=
  if positive then PInf else NInf.

(** [x * y] *)
Definition mul (x y : number) : number :=
  match x, y with
  | NaN, _ | _, NaN => NaN
  | Fin a, Fin b => Fin (a * b)
  | Fin a, PInf | PInf, Fin a =>
      if Qeq_bool a 0 then NaN else signed_inf (Qle_bool 0 a)
  | Fin a, NInf | NInf, Fin a =>
      if Qeq_bool a 0 then NaN else signed_inf (negb (Qle_bool 0 a))
  | PInf, PInf | NInf, NInf => PInf
  | PInf, NInf | NInf, PInf => NInf
  end.

(** [x / y] *)
Definition div (x y : number) : number :=
  match x, y with
  | NaN, _ | _, NaN => NaN
  | Fin a, Fin b =>
      if Qeq_bool b 0 then
        if Qeq_bool a 0 then NaN else signed_inf (Qle_bool 0 a)
      else Fin (a / b)
  | Fin _, PInf | Fin _, NInf => Fin 0
  | PInf, Fin b => signed_inf (Qle_bool 0 b)
  | NInf, Fin b => signed_inf (negb (Qle_bool 0 b))
  | _, _ => NaN
  end.

(** Truncation toward zero of a rational. *)
Definition Qtrunc (q : Q) : Z := Z.quot (Qnum q) (Zpos (Qden q)).

(** [x % y]: the remainder has the sign of the dividend. *)
Definition rem (x y : number) : number :=
  match x, y with
  | NaN, _ | _, NaN => NaN
  | PInf, _ | NInf, _ => NaN
  | Fin a, PInf | Fin a, NInf => Fin a
  | Fin a, Fin b =>
      if Qeq_bool b 0 then NaN
      else Fin (a - b * inject_Z (Qtrunc (a / b)))
  end.

(** [Math.floor] and [Math.ceil] *)
Definition Math_floor (x : number) : number :=
  match x with Fin a => of_Z (Qfloor a) | _ => x end.

Definition Math_ceil (x : number) : number :=
  match x with Fin a => of_Z (Qceiling a) | _ => x end.

(** Decimal notation of an integer. *)
Definition Z_to_string (z : Z) : string :=
  NilZero.string_of_int (Z.to_int z).

(** [String(x)] as used by template literals.  The program only
    interpolates results of [Math.floor]; for such integral values the
    notation is the decimal one (JavaScript switches to exponent notation
    from 10^21 on, which is not represented).  A fractional value is
    shown through its floor. *)
Definition to_string (x : number) : string :=
  match x with
  | Fin a => Z_to_string (Qfloor a)
  | PInf => "Infinity"
  | NInf => "-Infinity"
  | NaN => "NaN"
  end.

(** [x.toFixed(1)]: one digit after the point, ties rounded away from
    zero on the exact value. *)
Definition toFixed1 (x : number) : string :=
  match x with
  | Fin a =>
      let neg := Qlt_bool a 0 in
      let m := if neg then Qopp a else a in
      let n := Qfloor (m * 10 + (1 # 2)) in
      ((if neg then "-" else "") ++
       Z_to_string (n / 10) ++ "." ++ Z_to_string (n mod 10))%string
  | PInf => "Infinity"
  | NInf => "-Infinity"
  | NaN => "NaN"
  end.

End JS.

(* ===================================================================== *)
(** ** Files, blobs and parts *)
(* ===================================================================== *)

(** A [File]: its name, size in bytes and MIME type. *)
Record File : Type := mkFile {
  file_name : string;
  file_size : Z;
  file_type : string
}.

(** A [Blob] obtained by slicing a file is the byte range
    [[blob_start, blob_end)] of that file. *)
Record Blob : Type := mkBlob {
  blob_start : Z;
  blob_end : Z;
  blob_type : string
}.

Definition blob_size (b : Blob) : Z := blob_end b - blob_start b.

(** [file.slice(start, end, contentType)] with the clamping of the File
    API: a negative position counts from the end, positions are clamped
    to [[0, size]] and the span is never negative. *)
Definition slice (f : File) (start end_ : Z) (contentType : string) : Blob :=
  let size := file_size f in
  let relativeStart :=
    if start <? 0 then Z.max (size + start) 0 else Z.min start size in
  let relativeEnd :=
    if end_ <? 0 then Z.max (size + end_) 0 else Z.min end_ size in
  let span := Z.max (relativeEnd - relativeStart) 0 in
  mkBlob relativeStart (relativeStart + span) contentType.

(** [PartInfo] of [part-info.ts] (the optional [etag] is never set by the
    code under study). *)
Record PartInfo : Type := mkPartInfo {
  partNumber : Z;
  blob : Blob
}.

(** What JavaScript code can throw: an Angular [HttpErrorResponse] (with
    the [message] of its error body, when there is one, and its
    [statusText]), an [Error] object, or any other value. *)
Inductive JsError : Type :=
| HttpErrorResponse (bodyMessage : option string) (statusText : string)
| Error (message : string)
| OtherValue.

(** Result of running a piece of code: it returns, it throws, or it never
    settles ([Pending]: a remote call is never answered, or a loop is
    still running when the fuel is spent). *)
Inductive result (A : Type) : Type :=
| Ok (a : A)
| Throw (e : JsError)
| Pending.
Arguments Ok {A} a.
Arguments Throw {A} e.
Arguments Pending {A}.

(* ===================================================================== *)
(** ** Chunker: [UploadService.splitFileIntoChunks] *)
(* ===================================================================== *)

(** The [for (let i = 0; i < totalChunks; i++)] loop, entered with the
    current [i] and the [chunks] pushed so far. *)
Fixpoint splitLoop (fuel : nat) (file : File) (partSizeBytes : Z)
    (totalChunks : JS.number) (i : Z) (chunks : list PartInfo)
    : result (list PartInfo) :=
  match fuel with
  | O => Pending
  | S fuel' =>
      if JS.lt (JS.of_Z i) totalChunks then
        let start := i * partSizeBytes in
        let end_ := Z.min (start + partSizeBytes) (file_size file) in
        splitLoop fuel' file partSizeBytes totalChunks (i + 1)
          (chunks ++ [mkPartInfo (i + 1) (slice file start end_ (file_type file))])
      else Ok chunks
  end.

Definition splitFileIntoChunks (fuel : nat) (file : File) (partSizeBytes : Z)
    : result (list PartInfo) :=
  let totalChunks :=
    JS.Math_ceil (JS.div (JS.of_Z (file_size file)) (JS.of_Z partSizeBytes)) in
  splitLoop fuel file partSizeBytes totalChunks 0 [].

(** The part boundaries [ModulesComponent.uploadBatch] computes from a
    part number alone. *)
Definition partBlob (file : File) (partSizeBytes : Z) (partNumber : Z) : Blob :=
  let start := (partNumber - 1) * partSizeBytes in
  let end_ := Z.min (start + partSizeBytes) (file_size file) in
  slice file start end_ (file_type file).

(** [ceil(a / b)] on integers, for [0 < b]. *)
Definition ceil_div (a b : Z) : Z := - ((- a) / b).


(* ===================================================================== *)
(** ** Progress formatting: [formatSpeed], [formatTimeRemaining] *)
(* ===================================================================== *)

(** The same two formatters appear in [UploadService] and in
    [UploadProgressComponent], with identical bodies. *)

Definition units : list string := ["B"; "KB"; "MB"; "GB"]%string.

(** [while (size >= 1024 && unitIndex < units.length - 1)]: the loop
    walks [units] from [unitIndex] on and stops at the last unit. *)
Fixpoint formatSpeedLoop (remainingUnits : list string) (size : JS.number)
    : JS.number * string :=
  match remainingUnits with
  | [] => (size, "undefined"%string)
  | [u] => (size, u)
  | u :: later =>
      if JS.ge size (JS.of_Z 1024)
      then formatSpeedLoop later (JS.div size (JS.of_Z 1024))
      else (size, u)
  end.

Definition formatSpeed (bytesPerSecond : JS.number) : string :=
  let '(size, unit_) := formatSpeedLoop units bytesPerSecond in
  (JS.toFixed1 size ++ " " ++ unit_)%string.

Definition formatTimeRemaining (seconds : JS.number) : string :=
  if negb (JS.isFinite seconds) || JS.lt seconds (JS.of_Z 0)
  then "Calculating..."%string
  else
    let hours := JS.Math_floor (JS.div seconds (JS.of_Z 3600)) in
    let minutes :=
      JS.Math_floor (JS.div (JS.rem seconds (JS.of_Z 3600)) (JS.of_Z 60)) in
    let secs := JS.Math_floor (JS.rem seconds (JS.of_Z 60)) in
    if JS.gt hours (JS.of_Z 0) then
      (JS.to_string hours ++ "h " ++ JS.to_string minutes ++ "m")%string
    else if JS.gt minutes (JS.of_Z 0) then
      (JS.to_string minutes ++ "m " ++ JS.to_string secs ++ "s")%string
    else
      (JS.to_string secs ++ "s")%string.

(* ===================================================================== *)
(** ** Wire types of [file-upload.service.ts] *)
(* ===================================================================== *)

(** [storage-path.enum.ts] is not part of the sources; the code only
    uses its member [VIDEOS]. *)
Inductive StoragePath : Type := VIDEOS.

Record PartEtag : Type := mkPartEtag {
  pe_partNumber : Z;
  etag : string
}.

Record PresignedUrl : Type := mkPresignedUrl {
  pu_partNumber : Z;
  url : string
}.

Record MultipartUploadInfo : Type := mkMultipartUploadInfo {
  multipartUploadId : string;
  info_totalParts : Z;
  partSizeBytes : Z;
  presignedUrlsBatchSize : Z;
  totalBatches : Z
}.

Record InitiateUploadResponse : Type := mkInitiateUploadResponse {
  uploadId : string;
  bucket : string;
  objectKey : string;
  strategy : Z;
  presignedUrlExpiryHours : Z;
  multipartUploadInfo : MultipartUploadInfo
}.

Record Progress : Type := mkProgress {
  completedParts : Z;
  totalParts : Z;
  percentComplete : Q;
  isComplete : bool
}.

Record BatchUploadResponse : Type := mkBatchUploadResponse {
  progress : Progress;
  presignedUrls : list PresignedUrl
}.

Record CompleteUploadResponse : Type := mkCompleteUploadResponse {
  fileUrl : string
}.

(** The response of the [PUT] of one part: only its headers matter. *)
Record HttpResponse : Type := mkHttpResponse {
  headers : list (string * string)
}.

Definition lower (c : ascii) : ascii :=
  let n := nat_of_ascii c in
  if ((65 <=? n) && (n <=? 90))%nat then ascii_of_nat (n + 32) else c.

Fixpoint toLowerCase (s : string) : string :=
  match s with
  | EmptyString => EmptyString
  | String c rest => String (lower c) (toLowerCase rest)
  end.

(** [headers.get(name)]: header names are compared without regard to
    case; the first value is returned, [None] standing for [null]. *)
Fixpoint headers_get (hs : list (string * string)) (name : string)
    : option string :=
  match hs with
  | [] => None
  | (k, v) :: rest =>
      if String.eqb (toLowerCase k) (toLowerCase name) then Some v
      else headers_get rest name
  end.

(** Truthiness of a string: every string but the empty one. *)
Definition truthy (s : string) : bool := negb (String.eqb s "").

(** [a || b] on strings, [a] possibly [undefined]. *)
Definition or_else (a : option string) (b : string) : string :=
  match a with
  | Some s => if truthy s then s else b
  | None => b
  end.

Definition quote : ascii := "034"%char.

(** The characters [.] does not match in a regular expression without the
    [s] flag, among those a header value can hold. *)
Definition lineTerminator (c : ascii) : bool :=
  Ascii.eqb c "010"%char || Ascii.eqb c "013"%char.

Fixpoint noLineTerminator (s : string) : bool :=
  match s with
  | EmptyString => true
  | String c rest => negb (lineTerminator c) && noLineTerminator rest
  end.

(** Splits a non-empty string into all but its last character and its
    last character. *)
Fixpoint splitLast (s : string) : option (string * ascii) :=
  match s with
  | EmptyString => None
  | String c EmptyString => Some (EmptyString, c)
  | String c rest =>
      match splitLast rest with
      | Some (init, last) => Some (String c init, last)
      | None => None
      end
  end.

(** [etag.replace(re, '$1')], where [re] matches, anchored at both ends
    of the input, a double quote, a greedy group of any characters but
    line terminators, and a double quote: when the whole string has that
    shape it is replaced by the group, the text between the two quotes;
    otherwise nothing matches and the string is returned as it is. *)
Definition stripQuotes (etag : string) : string :=
  match etag with
  | String c rest =>
      if Ascii.eqb c quote then
        match splitLast rest with
        | Some (inner, last) =>
            if Ascii.eqb last quote && noLineTerminator inner
            then inner else etag
        | None => etag
        end
      else etag
  | EmptyString => etag
  end.

(** The [map] callback of [FileUploadService.uploadPart], applied to the
    response of a [PUT] that succeeded at transport level. *)
Definition extractEtag (response : HttpResponse) : result string :=
  match headers_get (headers response) "ETag" with
  | None => Throw (Error "No ETag found in response headers")
  | Some etag =>
      if negb (truthy etag)
      then Throw (Error "No ETag found in response headers")
      else Ok (stripQuotes etag)
  end.

(* ===================================================================== *)
(** ** Presentation state *)
(* ===================================================================== *)

Record UploadState : Type := mkUploadState {
  us_uploadId : option string;
  fileName : string;
  fileSize : Z;
  uploadedSize : Z;
  speed : string;
  timeRemaining : string
}.

(** [UploadProgress] of [upload.service.ts]. *)
Record UploadProgress : Type := mkUploadProgress {
  up_percentComplete : JS.number;
  up_uploadedSize : JS.number;
  up_speed : string;
  up_timeRemaining : string
}.

(** The fields of a [ModulesComponent] instance. *)
Record ComponentState : Type := mkComponentState {
  uploading : bool;
  comp_progress : Q;
  errorMessage : option string;
  isPaused : bool;
  selectedFile : option File;
  uploadState : option UploadState
}.

(** The fields of an [UploadService] instance. *)
Record ServiceState : Type := mkServiceState {
  lastUpdateTime : Z;
  lastUploadedSize : JS.number
}.

Definition initialComponent : ComponentState :=
  mkComponentState false 0 None false None None.

Definition initialService : ServiceState :=
  mkServiceState 0 (JS.of_Z 0).

(* ===================================================================== *)
(** ** The remote and the world the code runs in *)
(* ===================================================================== *)

(** A request the code issues, in the order of the log. *)
Inductive Call : Type :=
| CallInitiate (fileName : string) (fileSize : Z) (path : StoragePath)
    (contentType : string)
| CallNextBatch (uploadId : string) (PartEtags : list PartEtag)
| CallPut (url : string) (body : Blob)
| CallComplete (uploadId : string) (allETags : list PartEtag)
| CallAbort (uploadId : string)
| CallSetTimeout (delay : Z).

(** The answer to one awaited call: how long it took, whether the user
    pressed pause while it was in flight, and the value or error it
    settled with. *)
Record Reply (A : Type) : Type := mkReply {
  elapsed : Z;
  pausePressed : bool;
  answer : JsError + A
}.
Arguments mkReply {A} elapsed pausePressed answer.
Arguments elapsed {A} r.
Arguments pausePressed {A} r.
Arguments answer {A} r.

Record Remote : Type := mkRemote {
  initiateQ : list (Reply InitiateUploadResponse);
  batchQ : list (Reply BatchUploadResponse);
  putQ : list (Reply HttpResponse);
  completeQ : list (Reply CompleteUploadResponse);
  abortQ : list (Reply unit);
  clock : Z;
  log : list Call
}.

(** Everything the code reads or writes: the remote, the component and
    service instances, the progress events handed to [onProgress], and
    the values written to [uploadState.uploadedSize] (kept for
    observation only; nothing reads it). *)
Record World : Type := mkWorld {
  remote : Remote;
  comp : ComponentState;
  svc : ServiceState;
  emitted : list UploadProgress;
  uploadedSizeWrites : list Z
}.

Definition with_remote (r : Remote) (w : World) : World :=
  mkWorld r (comp w) (svc w) (emitted w) (uploadedSizeWrites w).

Definition with_comp (c : ComponentState) (w : World) : World :=
  mkWorld (remote w) c (svc w) (emitted w) (uploadedSizeWrites w).

Definition with_svc (s : ServiceState) (w : World) : World :=
  mkWorld (remote w) (comp w) s (emitted w) (uploadedSizeWrites w).

Definition with_log (l : list Call) (r : Remote) : Remote :=
  mkRemote (initiateQ r) (batchQ r) (putQ r) (completeQ r) (abortQ r)
    (clock r) l.

Definition with_clock (t : Z) (r : Remote) : Remote :=
  mkRemote (initiateQ r) (batchQ r) (putQ r) (completeQ r) (abortQ r)
    t (log r).

Definition with_initiateQ (q : list (Reply InitiateUploadResponse))
    (r : Remote) : Remote :=
  mkRemote q (batchQ r) (putQ r) (completeQ r) (abortQ r) (clock r) (log r).

Definition with_batchQ (q : list (Reply BatchUploadResponse))
    (r : Remote) : Remote :=
  mkRemote (initiateQ r) q (putQ r) (completeQ r) (abortQ r) (clock r) (log r).

Definition with_putQ (q : list (Reply HttpResponse)) (r : Remote) : Remote :=
  mkRemote (initiateQ r) (batchQ r) q (completeQ r) (abortQ r) (clock r) (log r).

Definition with_completeQ (q : list (Reply CompleteUploadResponse))
    (r : Remote) : Remote :=
  mkRemote (initiateQ r) (batchQ r) (putQ r) q (abortQ r) (clock r) (log r).

Definition with_abortQ (q : list (Reply unit)) (r : Remote) : Remote :=
  mkRemote (initiateQ r) (batchQ r) (putQ r) (completeQ r) q (clock r) (log r).

Definition set_uploading (b : bool) (c : ComponentState) : ComponentState :=
  mkComponentState b (comp_progress c) (errorMessage c) (isPaused c)
    (selectedFile c) (uploadState c).

Definition set_progress (p : Q) (c : ComponentState) : ComponentState :=
  mkComponentState (uploading c) p (errorMessage c) (isPaused c)
    (selectedFile c) (uploadState c).

Definition set_errorMessage (m : option string) (c : ComponentState)
    : ComponentState :=
  mkComponentState (uploading c) (comp_progress c) m (isPaused c)
    (selectedFile c) (uploadState c).

Definition set_isPaused (b : bool) (c : ComponentState) : ComponentState :=
  mkComponentState (uploading c) (comp_progress c) (errorMessage c) b
    (selectedFile c) (uploadState c).

Definition set_selectedFile (f : option File) (c : ComponentState)
    : ComponentState :=
  mkComponentState (uploading c) (comp_progress c) (errorMessage c)
    (isPaused c) f (uploadState c).

Definition set_uploadState (s : option UploadState) (c : ComponentState)
    : ComponentState :=
  mkComponentState (uploading c) (comp_progress c) (errorMessage c)
    (isPaused c) (selectedFile c) s.

Definition set_us_uploadId (id : option string) (s : UploadState)
    : UploadState :=
  mkUploadState id (fileName s) (fileSize s) (uploadedSize s) (speed s)
    (timeRemaining s).

Definition set_uploadedSize (n : Z) (s : UploadState) : UploadState :=
  mkUploadState (us_uploadId s) (fileName s) (fileSize s) n (speed s)
    (timeRemaining s).

(* ===================================================================== *)
(** ** Asynchronous code as a state-and-error monad *)
(* ===================================================================== *)

Definition M (A : Type) : Type := World -> result A * World.

Definition ret {A : Type} (a : A) : M A := fun w => (Ok a, w).

Definition bind {A B : Type} (m : M A) (k : A -> M B) : M B :=
  fun w =>
    match m w with
    | (Ok a, w') => k a w'
    | (Throw e, w') => (Throw e, w')
    | (Pending, w') => (Pending, w')
    end.

Definition throw {A : Type} (e : JsError) : M A := fun w => (Throw e, w).

(** [try { body } catch (e) { handler e }] *)
Definition try_catch {A : Type} (body : M A) (handler : JsError -> M A)
    : M A :=
  fun w =>
    match body w with
    | (Throw e, w') => handler e w'
    | other => other
    end.

(** [try { body } finally { cleanup }]; [cleanup] does not throw in the
    code under study. *)
Definition try_finally {A : Type} (body : M A) (cleanup : World -> World)
    : M A :=
  fun w =>
    match body w with
    | (Pending, w') => (Pending, w')
    | (r, w') => (r, cleanup w')
    end.

Definition lift {A : Type} (r : result A) : M A := fun w => (r, w).

Definition read {A : Type} (f : World -> A) : M A := fun w => (Ok (f w), w).

Definition update (f : World -> World) : M unit := fun w => (Ok tt, f w).

Definition update_comp (f : ComponentState -> ComponentState) : M unit :=
  update (fun w => with_comp (f (comp w)) w).

Declare Scope js_scope.
Delimit Scope js_scope with js.
Notation "x <- m ;; k" := (bind m (fun x => k))
  (at level 100, m at next level, right associativity) : js_scope.
Notation "m ;; k" := (bind m (fun _ => k))
  (at level 100, right associativity) : js_scope.
Local Open Scope js_scope.

(** [await] of a remote call: the request is logged; when a reply is
    queued the clock advances by the time it took, a pause pressed
    meanwhile sets [isPaused] (what [pauseUpload] does), and the promise
    settles with the reply's value or error. *)
Definition await {A : Type} (call : Call)
    (queue : Remote -> list (Reply A))
    (with_queue : list (Reply A) -> Remote -> Remote) : M A :=
  fun w =>
    let r := with_log (log (remote w) ++ [call]) (remote w) in
    match queue r with
    | [] => (Pending, with_remote r w)
    | reply :: rest =>
        let r' := with_clock (clock r + elapsed reply) (with_queue rest r) in
        let c' := if pausePressed reply
                  then set_isPaused true (comp w) else comp w in
        let w' := with_comp c' (with_remote r' w) in
        match answer reply with
        | inl e => (Throw e, w')
        | inr a => (Ok a, w')
        end
    end.

(** [await new Promise(resolve => setTimeout(resolve, delay))] *)
Definition sleep (delay : Z) : M unit :=
  update (fun w =>
    let r := with_log (log (remote w) ++ [CallSetTimeout delay]) (remote w) in
    with_remote (with_clock (clock r + delay) r) w).

(** [Date.now()] *)
Definition Date_now : M Z := read (fun w => clock (remote w)).

(* ===================================================================== *)
(** ** [FileUploadService] *)
(* ===================================================================== *)

Module FileUploadService.

Definition initiateFileUpload (fileName : string) (fileSize : Z)
    (path : StoragePath) (contentType : string) : M InitiateUploadResponse :=
  await (CallInitiate fileName fileSize path contentType)
    initiateQ with_initiateQ.

Definition getNextBatchUrls (uploadId : string) (PartEtags : list PartEtag)
    : M BatchUploadResponse :=
  await (CallNextBatch uploadId PartEtags) batchQ with_batchQ.

Definition completeUpload (uploadId : string) (allETags : list PartEtag)
    : M CompleteUploadResponse :=
  await (CallComplete uploadId allETags) completeQ with_completeQ.

Definition abortUpload (uploadId : string) : M unit :=
  await (CallAbort uploadId) abortQ with_abortQ.

(** [this._http.put(url, blob, {observe: 'response'}).pipe(map(...))]:
    a transport error bypasses [map]; a response goes through it. *)
Definition uploadPart (url : string) (blob : Blob) : M string :=
  response <- await (CallPut url blob) putQ with_putQ ;;
  lift (extractEtag response).

End FileUploadService.

Notation "' p <- m ;; k" := (bind m (fun x => match x with p => k end))
  (at level 100, p pattern, m at next level, right associativity) : js_scope.

(** Runs [m] and turns a throw into a value, as a [try] block that
    records which way it went. *)
Definition attempt {A : Type} (m : M A) : M (JsError + A) :=
  fun w =>
    match m w with
    | (Ok a, w') => (Ok (inr a), w')
    | (Throw e, w') => (Ok (inl e), w')
    | (Pending, w') => (Pending, w')
    end.

(* ===================================================================== *)
(** ** [ModulesComponent] *)
(* ===================================================================== *)

Module ModulesComponent.

Definition maxRetries : Z := 3.

(** The [while (retryCount < maxRetries && !success)] loop of
    [uploadBatch] for one presigned URL; its state is [retryCount],
    [success] and [currentBatchETags]. *)
Fixpoint retryLoop (fuel : nat) (file : File) (partSizeBytes : Z)
    (part : PresignedUrl) (retryCount : Z) (success : bool)
    (currentBatchETags : list PartEtag) : M (bool * list PartEtag) :=
  match fuel with
  | O => lift Pending
  | S fuel' =>
      if (retryCount <? maxRetries) && negb success then
        ' (retryCount', success', etags') <-
          try_catch
            (let start := (pu_partNumber part - 1) * partSizeBytes in
             let end_ := Z.min (start + partSizeBytes) (file_size file) in
             let blob := slice file start end_ (file_type file) in
             response_etag <- FileUploadService.uploadPart (url part) blob ;;
             ret (retryCount, true,
                  currentBatchETags ++
                  [mkPartEtag (pu_partNumber part) response_etag]))
            (fun _ =>
               let retryCount := retryCount + 1 in
               (if retryCount <? maxRetries
                then sleep (Z.min (1000 * 2 ^ retryCount) 10000)
                else ret tt) ;;
               ret (retryCount, false, currentBatchETags)) ;;
        retryLoop fuel' file partSizeBytes part retryCount' success' etags'
      else ret (success, currentBatchETags)
  end.

(** [this.uploadState.uploadedSize = ...] after a part, when the part
    succeeded and there is an [uploadState]. *)
Definition updateUploadedSize (success : bool) (partSizeBytes : Z)
    (currentBatchETags : list PartEtag) : M unit :=
  update (fun w =>
    match uploadState (comp w) with
    | Some us =>
        if success then
          let uploadedSize :=
            Z.of_nat (List.length currentBatchETags) * partSizeBytes in
          let v := Z.min uploadedSize (fileSize us) in
          mkWorld (remote w)
            (set_uploadState (Some (set_uploadedSize v us)) (comp w))
            (svc w) (emitted w) (uploadedSizeWrites w ++ [v])
        else w
    | None => w
    end).

(** The [for (const {partNumber, url} of presignedUrls)] loop. *)
Fixpoint forEachPart (file : File) (partSizeBytes : Z)
    (presignedUrls : list PresignedUrl) (currentBatchETags : list PartEtag)
    : M (list PartEtag) :=
  match presignedUrls with
  | [] => ret currentBatchETags
  | part :: rest =>
      ' (success, etags) <-
        retryLoop (S (Z.to_nat maxRetries)) file partSizeBytes part 0 false
          currentBatchETags ;;
      updateUploadedSize success partSizeBytes etags ;;
      forEachPart file partSizeBytes rest etags
  end.

Definition uploadBatch (file : File) (partSizeBytes : Z)
    (presignedUrls : list PresignedUrl) : M (list PartEtag) :=
  forEachPart file partSizeBytes presignedUrls [].

Definition resetUploadState : M unit :=
  update_comp (set_uploading false) ;;
  update_comp (set_isPaused false) ;;
  update_comp (set_progress 0) ;;
  update_comp (set_selectedFile None) ;;
  update_comp (set_uploadState None) ;;
  update_comp (set_errorMessage None).

(** How the [while] loop of [uploadFile] is left: its condition became
    false, or the [catch] inside it executed [return]. *)
Inductive LoopExit : Type :=
| Finished (allUploadedETags : list PartEtag)
| ReturnedEarly.

(** [while (!isUploadComplete && !this.isPaused)] *)
Fixpoint waveLoop (fuel : nat) (file : File) (partSizeBytes : Z)
    (uploadId : string) (isUploadComplete : bool)
    (batch : BatchUploadResponse) (allUploadedETags : list PartEtag)
    : M LoopExit :=
  match fuel with
  | O => lift Pending
  | S fuel' =>
      paused <- read (fun w => isPaused (comp w)) ;;
      if negb isUploadComplete && negb paused then
        step <-
          try_catch
            (currentBatchETags <-
               uploadBatch file partSizeBytes (presignedUrls batch) ;;
             let allUploadedETags := allUploadedETags ++ currentBatchETags in
             batch' <-
               FileUploadService.getNextBatchUrls uploadId allUploadedETags ;;
             update_comp (set_progress (percentComplete (progress batch'))) ;;
             ret (Some (isComplete (progress batch'), batch', allUploadedETags)))
            (fun error =>
               paused <- read (fun w => isPaused (comp w)) ;;
               if paused then ret None else throw error) ;;
        match step with
        | Some (complete, batch', etags) =>
            waveLoop fuel' file partSizeBytes uploadId complete batch' etags
        | None => ret ReturnedEarly
        end
      else ret (Finished allUploadedETags)
  end.

(** The [catch (error)] block of [uploadFile]; [uploadId] is the local
    variable as it stands when the error is caught. *)
Definition catchBlock (uploadId : option string) (error : JsError) : M unit :=
  update_comp (set_errorMessage (Some
    match error with
    | HttpErrorResponse bodyMessage statusText =>
        ("Upload failed: " ++ or_else bodyMessage statusText)%string
    | Error message => message
    | OtherValue => "Upload failed due to an unexpected error"%string
    end)) ;;
  match uploadId with
  | Some id =>
      if truthy id
      then try_catch (FileUploadService.abortUpload id) (fun _ => ret tt)
      else ret tt
  | None => ret tt
  end.

(** The [try] block of [uploadFile] from the point where [uploadId] has
    been assigned. *)
Definition afterInitiate (fuel : nat) (file : File)
    (initResponse : InitiateUploadResponse) : M unit :=
  update_comp (fun c =>
    match uploadState c with
    | None =>
        set_uploadState
          (Some (mkUploadState None (file_name file) (file_size file) 0
                   "0 KB" "Calculating...")) c
    | Some _ => c
    end) ;;
  update_comp (fun c =>
    match uploadState c with
    | Some us =>
        set_uploadState
          (Some (set_us_uploadId (Some (uploadId initResponse)) us)) c
    | None => c
    end) ;;
  let uploadId := uploadId initResponse in
  let partSizeBytes := partSizeBytes (multipartUploadInfo initResponse) in
  if negb (truthy uploadId) then throw (Error "Upload ID is missing")
  else
    batch <- FileUploadService.getNextBatchUrls uploadId [] ;;
    exit <- waveLoop fuel file partSizeBytes uploadId false batch [] ;;
    match exit with
    | ReturnedEarly => ret tt
    | Finished allUploadedETags =>
        paused <- read (fun w => isPaused (comp w)) ;;
        if negb paused then
          _finalResponse <-
            FileUploadService.completeUpload uploadId allUploadedETags ;;
          resetUploadState
        else ret tt
    end.

Definition uploadFile (fuel : nat) (file : File) : M unit :=
  paused <- read (fun w => isPaused (comp w)) ;;
  if paused then ret tt
  else
    update_comp (set_uploading true) ;;
    update_comp (set_errorMessage None) ;;
    try_finally
      (initiated <-
         attempt
           (FileUploadService.initiateFileUpload (file_name file)
              (file_size file) VIDEOS
              (or_else (Some (file_type file)) "application/octet-stream")) ;;
       match initiated with
       | inl error => catchBlock None error
       | inr initResponse =>
           try_catch (afterInitiate fuel file initResponse)
             (catchBlock (Some (uploadId initResponse)))
       end)
      (fun w =>
         if isPaused (comp w) then w
         else with_comp (set_uploading false (comp w)) w).

Definition handleFileSelection (file : File) : M unit :=
  update_comp (set_selectedFile (Some file)) ;;
  update_comp (set_uploadState
    (Some (mkUploadState None (file_name file) (file_size file) 0
             "0 KB" "Calculating..."))).

Definition pauseUpload : M unit := update_comp (set_isPaused true).

Definition resumeUpload (fuel : nat) : M unit :=
  update_comp (set_isPaused false) ;;
  selected <- read (fun w => selectedFile (comp w)) ;;
  match selected with
  | Some file => uploadFile fuel file
  | None => ret tt
  end.

Definition abortUpload : M unit :=
  state <- read (fun w => uploadState (comp w)) ;;
  match state with
  | Some us =>
      match us_uploadId us with
      | Some id =>
          if truthy id
          then try_catch (FileUploadService.abortUpload id) (fun _ => ret tt)
          else ret tt
      | None => ret tt
      end
  | None => ret tt
  end ;;
  resetUploadState.

End ModulesComponent.

(* ===================================================================== *)
(** ** [UploadService] *)
(* ===================================================================== *)

Module UploadService.

(** [uploadBatch]: every part of the wave is started and
    [Promise.allSettled] waits for all of them; the fulfilled results are
    kept in the order of [parts].  The [PUT]s are answered from the reply
    queue in request order. *)
Fixpoint uploadBatch (parts : list PresignedUrl) (chunks : list PartInfo)
    : M (list PartEtag) :=
  match parts with
  | [] => ret []
  | part :: rest =>
      settled <-
        attempt
          match find (fun c => partNumber c =? pu_partNumber part) chunks with
          | None =>
              throw (Error ("Missing chunk " ++
                            JS.Z_to_string (pu_partNumber part)))
          | Some chunk =>
              try_catch
                (response_etag <-
                   FileUploadService.uploadPart (url part) (blob chunk) ;;
                 ret (mkPartEtag (pu_partNumber part) response_etag))
                (fun error => throw error)
          end ;;
      others <- uploadBatch rest chunks ;;
      ret match settled with
          | inr fulfilled => fulfilled :: others
          | inl _ => others
          end
  end.

Definition calculateProgress (uploadedSize : JS.number) (totalSize : Z)
    : M UploadProgress :=
  now <- Date_now ;;
  s <- read svc ;;
  let timeDiff := JS.div (JS.of_Z (now - lastUpdateTime s)) (JS.of_Z 1000) in
  let sizeDiff := JS.sub uploadedSize (lastUploadedSize s) in
  ' (speed, timeRemaining) <-
    (if JS.gt timeDiff (JS.of_Z 0) then
       let bytesPerSecond := JS.div sizeDiff timeDiff in
       let remainingSize := JS.sub (JS.of_Z totalSize) uploadedSize in
       let secondsRemaining := JS.div remainingSize bytesPerSecond in
       update (with_svc (mkServiceState now uploadedSize)) ;;
       ret (formatSpeed bytesPerSecond, formatTimeRemaining secondsRemaining)
     else ret ("0 B"%string, "Calculating..."%string)) ;;
  ret (mkUploadProgress
         (JS.mul (JS.div uploadedSize (JS.of_Z totalSize)) (JS.of_Z 100))
         uploadedSize speed timeRemaining).

(** The [onProgress] callback: the event is handed to the caller. *)
Definition onProgress (p : UploadProgress) : M unit :=
  update (fun w =>
    mkWorld (remote w) (comp w) (svc w) (emitted w ++ [p])
      (uploadedSizeWrites w)).

(** [while (!isUploadComplete)]; the loop state is [isUploadComplete],
    [progress] (here [batch]) and [prevBatchETags]. *)
Fixpoint waveLoop (fuel : nat) (file : File) (uploadId : string)
    (chunks : list PartInfo) (isUploadComplete : bool)
    (batch : BatchUploadResponse) (prevBatchETags : list PartEtag)
    : M (list PartEtag) :=
  match fuel with
  | O => lift Pending
  | S fuel' =>
      if negb isUploadComplete then
        currentBatchETags <- uploadBatch (presignedUrls batch) chunks ;;
        let prevBatchETags := currentBatchETags in
        batch' <- FileUploadService.getNextBatchUrls uploadId prevBatchETags ;;
        let uploadedSize :=
          JS.div
            (JS.of_Z (completedParts (progress batch') * file_size file))
            (JS.of_Z (totalParts (progress batch'))) in
        uploadProgress <- calculateProgress uploadedSize (file_size file) ;;
        onProgress uploadProgress ;;
        waveLoop fuel' file uploadId chunks (isComplete (progress batch'))
          batch' prevBatchETags
      else ret prevBatchETags
  end.

Definition uploadFile (fuel : nat) (file : File) : M string :=
  now <- Date_now ;;
  update (with_svc (mkServiceState now (JS.of_Z 0))) ;;
  try_catch
    (initResponse <-
       FileUploadService.initiateFileUpload (file_name file) (file_size file)
         VIDEOS (or_else (Some (file_type file)) "application/octet-stream") ;;
     let uploadId := uploadId initResponse in
     let partSizeBytes := partSizeBytes (multipartUploadInfo initResponse) in
     chunks <- lift (splitFileIntoChunks fuel file partSizeBytes) ;;
     batch <- FileUploadService.getNextBatchUrls uploadId [] ;;
     prevBatchETags <- waveLoop fuel file uploadId chunks false batch [] ;;
     finalResponse <-
       FileUploadService.completeUpload uploadId prevBatchETags ;;
     ret (fileUrl finalResponse))
    (fun error =>
       match error with
       | HttpErrorResponse bodyMessage statusText =>
           throw (Error ("Upload failed: " ++ or_else bodyMessage statusText))
       | _ => throw (Error "Upload failed due to an unexpected error")
       end).

Definition abortUpload (uploadId : string) : M unit :=
  try_catch (FileUploadService.abortUpload uploadId)
    (fun error => throw error).

End UploadService.

(* ===================================================================== *)
(** ** [FileUploadService.getFileType] and the content type of a request *)
(* ===================================================================== *)

(** [s.split(separator)]: the pieces of [s] between the separators; an
    empty string gives one empty piece. *)
Fixpoint String_split (separator : ascii) (s : string) : list string :=
  match s with
  | EmptyString => [EmptyString]
  | String c rest =>
      if Ascii.eqb c separator then EmptyString :: String_split separator rest
      else
        match String_split separator rest with
        | piece :: pieces => String c piece :: pieces
        | [] => [String c EmptyString]
        end
  end.

(** [array.pop()]: the last element, [None] standing for [undefined]. *)
Fixpoint pop (pieces : list string) : option string :=
  match pieces with
  | [] => None
  | [piece] => Some piece
  | _ :: rest => pop rest
  end.

(** The object literal [mimeTypes], in source order. *)
Definition mimeTypes : list (string * string) :=
  [("jpg", "image/jpeg"); ("jpeg", "image/jpeg"); ("png", "image/png");
   ("gif", "image/gif"); ("webp", "image/webp"); ("svg", "image/svg+xml");
   ("mp4", "video/mp4"); ("webm", "video/webm"); ("ogg", "video/ogg");
   ("mov", "video/quicktime"); ("avi", "video/x-msvideo");
   ("wmv", "video/x-ms-wmv"); ("flv", "video/x-flv"); ("m4v", "video/x-m4v");
   ("mkv", "video/x-matroska");
   ("mp3", "audio/mpeg"); ("wav", "audio/wav"); ("aac", "audio/aac");
   ("m4a", "audio/mp4");
   ("pdf", "application/pdf"); ("doc", "application/msword");
   ("docx",
    "application/vnd.openxmlformats-officedocument.wordprocessingml.document");
   ("xls", "application/vnd.ms-excel");
   ("xlsx",
    "application/vnd.openxmlformats-officedocument.spreadsheetml.sheet");
   ("ppt", "application/vnd.ms-powerpoint");
   ("pptx",
    "application/vnd.openxmlformats-officedocument.presentationml.presentation");
   ("zip", "application/zip"); ("rar", "application/x-rar-compressed");
   ("7z", "application/x-7z-compressed");
   ("txt", "text/plain"); ("csv", "text/csv"); ("html", "text/html");
   ("css", "text/css"); ("js", "text/javascript");
   ("json", "application/json"); ("xml", "application/xml");
   ("ico", "image/x-icon"); ("ttf", "font/ttf"); ("woff", "font/woff");
   ("woff2", "font/woff2")]%string.

(** The property names every object literal inherits from
    [Object.prototype]; the [in] operator finds them too. *)
Definition objectPrototypeKeys : list string :=
  ["constructor"; "__defineGetter__"; "__defineSetter__"; "hasOwnProperty";
   "__lookupGetter__"; "__lookupSetter__"; "isPrototypeOf";
   "propertyIsEnumerable"; "toString"; "valueOf"; "__proto__";
   "toLocaleString"]%string.

(** The value of an own property of an object literal. *)
Fixpoint ownProperty (key : string) (o : list (string * string))
    : option string :=
  match o with
  | [] => None
  | (k, v) :: rest => if String.eqb k key then Some v else ownProperty key rest
  end.

(** What [getFileType] hands back: a string, or, when the key is found on
    the prototype only, the function or object inherited under that
    key. *)
Inductive PropertyValue : Type :=
| StringValue (s : string)
| InheritedValue (key : string).

(** [getFileType]; file names are taken to be ASCII, on which
    [toLowerCase] acts letter by letter. *)
Definition getFileType (fileName : string) : PropertyValue :=
  match option_map toLowerCase (pop (String_split "."%char fileName)) with
  | None => StringValue "application/octet-stream"
  | Some extension =>
      if negb (truthy extension) then StringValue "application/octet-stream"
      else
        match ownProperty extension mimeTypes with
        | Some mime => StringValue mime
        | None =>
            if existsb (String.eqb extension) objectPrototypeKeys
            then InheritedValue extension
            else StringValue "application/octet-stream"
        end
  end.

(** The [contentType] field of the request [initiateFileUpload] builds:
    [contentType || this.getFileType(fileName)]. *)
Definition requestContentType (contentType : option string)
    (fileName : string) : PropertyValue :=
  match contentType with
  | Some given =>
      if truthy given then StringValue given else getFileType fileName
  | None => getFileType fileName
  end.

(* ===================================================================== *)
(** ** [UploadProgressComponent] *)
(* ===================================================================== *)

(** The [UploadState] interface this component declares for itself; its
    sizes are plain numbers. *)
Record PanelUploadState : Type := mkPanelUploadState {
  panel_uploadId : option string;
  panel_fileName : string;
  panel_fileSize : JS.number;
  panel_uploadedSize : JS.number;
  panel_speed : string;
  panel_timeRemaining : string
}.

(** The fields [updateProgress] reads and writes, and the events sent
    through [progressUpdate]. *)
Record ProgressPanel : Type := mkProgressPanel {
  panel_uploadState : option PanelUploadState;
  panel_lastUpdateTime : Z;
  panel_lastUploadedSize : JS.number;
  progressUpdate : list (JS.number * PanelUploadState)
}.

(** [updateProgress(uploadedSize)], [now] being what [Date.now()]
    returns. *)
Definition updateProgress (now : Z) (uploadedSize : JS.number)
    (panel : ProgressPanel) : ProgressPanel :=
  match panel_uploadState panel with
  | None => panel
  | Some state =>
      let timeDiff :=
        JS.div (JS.of_Z (now - panel_lastUpdateTime panel)) (JS.of_Z 1000) in
      let sizeDiff := JS.sub uploadedSize (panel_lastUploadedSize panel) in
      if JS.gt timeDiff (JS.of_Z 0) then
        let speed := JS.div sizeDiff timeDiff in
        let remainingSize := JS.sub (panel_fileSize state) uploadedSize in
        let timeRemaining := JS.div remainingSize speed in
        let state' :=
          mkPanelUploadState (panel_uploadId state) (panel_fileName state)
            (panel_fileSize state) uploadedSize (formatSpeed speed)
            (formatTimeRemaining timeRemaining) in
        let progressPercent :=
          JS.mul (JS.div uploadedSize (panel_fileSize state')) (JS.of_Z 100) in
        mkProgressPanel (Some state') now uploadedSize
          (progressUpdate panel ++ [(progressPercent, state')])
      else panel
  end.

(* ===================================================================== *)
(** ** Concrete runs *)
(* ===================================================================== *)

Module Scenario.

(** The 2,500,000-byte file of the specification's end-to-end example,
    uploaded in parts of 1,000,000 bytes. *)
Definition video : File := mkFile "lecture.mp4" 2500000 "video/mp4".

Definition session (id : string) : InitiateUploadResponse :=
  mkInitiateUploadResponse id "media" "videos/lecture.mp4" 1 24
    (mkMultipartUploadInfo "mp-1" 3 1000000 2 2).

Definition settles {A : Type} (a : A) : Reply A := mkReply 250 false (inr a).

Definition fails {A : Type} (e : JsError) : Reply A := mkReply 250 false (inl e).

Definition settlesWhilePausing {A : Type} (a : A) : Reply A :=
  mkReply 250 true (inr a).

Definition stored (etag : string) : HttpResponse :=
  mkHttpResponse [("ETag"%string, etag)].

Definition networkError : JsError :=
  HttpErrorResponse None "Unknown Error".

Definition wave (completed : Z) (percent : Q) (complete : bool)
    (parts : list PresignedUrl) : BatchUploadResponse :=
  mkBatchUploadResponse (mkProgress completed 3 percent complete) parts.

Definition url1 := mkPresignedUrl 1 "https://s3/p1".
Definition url2 := mkPresignedUrl 2 "https://s3/p2".
Definition url3 := mkPresignedUrl 3 "https://s3/p3".

Definition receipt1 := mkPartEtag 1 "e1".
Definition receipt2 := mkPartEtag 2 "e2".
Definition receipt3 := mkPartEtag 3 "e3".

Definition startWorld (r : Remote) : World :=
  mkWorld r initialComponent initialService [] [].

(** Two waves: parts 1 and 2, then part 3; every [PUT] succeeds. *)
Definition twoWaves : Remote :=
  mkRemote
    [settles (session "U1")]
    [settles (wave 0 0 false [url1; url2]);
     settles (wave 2 (200 # 3) false [url3]);
     settles (wave 3 100 true [])]
    [settles (stored "e1"); settles (stored "e2"); settles (stored "e3")]
    [settles (mkCompleteUploadResponse "https://cdn/lecture.mp4")]
    []
    1000
    [].

(** The user pauses during the first wave and resumes afterwards; the
    remote opens a second session when asked to initiate again. *)
Definition pausedThenResumed : Remote :=
  mkRemote
    [settles (session "U1"); settles (session "U2")]
    [settles (wave 0 0 false [url1; url2]);
     settles (wave 2 (200 # 3) false [url3]);
     settles (wave 0 0 false [url1; url2]);
     settles (wave 2 (200 # 3) false [url3]);
     settles (wave 3 100 true [])]
    [settlesWhilePausing (stored "e1"); settles (stored "e2");
     settles (stored "e1b"); settles (stored "e2b"); settles (stored "e3b")]
    [settles (mkCompleteUploadResponse "https://cdn/lecture.mp4")]
    []
    1000
    [].

Definition pauseThenResume : M unit :=
  (ModulesComponent.handleFileSelection video ;;
   ModulesComponent.uploadFile 10 video ;;
   ModulesComponent.resumeUpload 10)%js.

End Scenario.

(* ===================================================================== *)
(** ** Vocabulary of the statements *)
(* ===================================================================== *)

(** The part pushed by iteration [i] of the chunker's loop. *)
Definition chunkAt (file : File) (partSizeBytes : Z) (i : Z) : PartInfo :=
  let start := i * partSizeBytes in
  let end_ := Z.min (start + partSizeBytes) (file_size file) in
  mkPartInfo (i + 1) (slice file start end_ (file_type file)).

(** The [k] consecutive integers from [i] on. *)
Fixpoint indices (i : Z) (k : nat) : list Z :=
  match k with
  | O => []
  | S k' => i :: indices (i + 1) k'
  end.

(** Part number and byte range of a part: what is left of it when the
    MIME type carried by its blob is put aside. *)
Definition partRange (part : PartInfo) : Z * Z * Z :=
  (partNumber part, blob_start (blob part), blob_end (blob part)).

(** Byte offset [b] of the file lies in the range of [part]. *)
Definition holds (part : PartInfo) (b : Z) : Prop :=
  blob_start (blob part) <= b < blob_end (blob part).

(** A token wrapped in one pair of double quotes. *)
Definition quoted (inner : string) : string :=
  String quote (inner ++ String quote EmptyString).

(** How a [PUT] answered by [reply] ends for [uploadPart]. *)
Definition putResult (reply : Reply HttpResponse) : result string :=
  match answer reply with
  | inl error => Throw error
  | inr response => extractEtag response
  end.

(** The world once a [PUT] has been answered by [reply]. *)
Definition afterPut (url : string) (body : Blob) (reply : Reply HttpResponse)
    (w : World) : World :=
  let r := remote w in
  with_comp
    (if pausePressed reply then set_isPaused true (comp w) else comp w)
    (with_remote
       (mkRemote (initiateQ r) (batchQ r) (tl (putQ r)) (completeQ r)
          (abortQ r) (clock r + elapsed reply)
          (log r ++ [CallPut url body]))
       w).

(** The wait before retry [k], in milliseconds, as the specification
    words it: [min(1000 * 2^k, 10000)]. *)
Definition backoff (k : Z) : Z := Z.min (1000 * 2 ^ k) 10000.

(** Retries [k], [k+1], ... of one part: each is a wait followed by a
    [PUT] of the same body to the same URL. *)
Fixpoint retriesFrom (url : string) (body : Blob) (k : Z) (n : nat)
    : list Call :=
  match n with
  | O => []
  | S n' =>
      CallSetTimeout (backoff k) :: CallPut url body
      :: retriesFrom url body (k + 1) n'
  end.

(** The requests of [attempts] attempts at one part: an immediate [PUT],
    then the retries. *)
Definition attemptsTrace (url : string) (body : Blob) (attempts : nat)
    : list Call :=
  match attempts with
  | O => []
  | S n => CallPut url body :: retriesFrom url body 1 n
  end.

(** A [PUT] answered by [reply] does not yield a receipt. *)
Definition putFails (reply : Reply HttpResponse) : Prop :=
  exists error, putResult reply = Throw error.

(** The replies one part of a wave consumes, and what the part ends
    with: fewer than three failures followed by a success that carries
    [etag], or three failures, after which the part is given up. *)
Inductive PartRun : list (Reply HttpResponse) -> option string -> Prop :=
| run_confirmed (failures : list (Reply HttpResponse))
    (reply : Reply HttpResponse) (etag : string) :
    (List.length failures < 3)%nat ->
    Forall putFails failures ->
    putResult reply = Ok etag ->
    PartRun (failures ++ [reply]) (Some etag)
| run_exhausted (failures : list (Reply HttpResponse)) :
    List.length failures = 3%nat ->
    Forall putFails failures ->
    PartRun failures None.

(** The receipts of a wave, given how each of its parts ended. *)
Fixpoint receiptsOf (parts : list PresignedUrl)
    (outcomes : list (option string)) : list PartEtag :=
  match parts, outcomes with
  | part :: parts', Some etag :: outcomes' =>
      mkPartEtag (pu_partNumber part) etag :: receiptsOf parts' outcomes'
  | _ :: parts', None :: outcomes' => receiptsOf parts' outcomes'
  | _, _ => []
  end.

(** Number of parts that exhausted their retries. *)
Fixpoint exhausted (outcomes : list (option string)) : nat :=
  match outcomes with
  | [] => O
  | None :: outcomes' => S (exhausted outcomes')
  | Some _ :: outcomes' => exhausted outcomes'
  end.

(** The requests of a whole wave: those of its parts, one part after the
    other, each part taking as many attempts as it consumed replies. *)
Fixpoint batchTrace (file : File) (partSizeBytes : Z)
    (parts : list PresignedUrl) (blocks : list (list (Reply HttpResponse)))
    : list Call :=
  match parts, blocks with
  | part :: parts', block :: blocks' =>
      attemptsTrace (url part)
        (partBlob file partSizeBytes (pu_partNumber part))
        (List.length block)
      ++ batchTrace file partSizeBytes parts' blocks'
  | _, _ => []
  end.

(** The world after the wait that follows failed attempt number
    [retryCount]: there is a wait only when a retry is left. *)
Definition afterBackoff (retryCount : Z) (w : World) : World :=
  if retryCount <? ModulesComponent.maxRetries
  then snd (sleep (Z.min (1000 * 2 ^ retryCount) 10000) w)
  else w.

(** A computation only ever appends to the log of requests. *)
Definition appendsToLog {A : Type} (m : M A) : Prop :=
  forall w : World,
    exists more : list Call,
      log (remote (snd (m w))) = log (remote w) ++ more.

(** Each element is at most the next one. *)
Fixpoint nondecreasing (l : list Z) : Prop :=
  match l with
  | a :: (b :: _) as rest => a <= b /\ nondecreasing rest
  | _ => True
  end.

(** The [fileSize] of the component's [uploadState], when there is one. *)
Definition trackedSize (w : World) : option Z :=
  match uploadState (comp w) with
  | Some us => Some (fileSize us)
  | None => None
  end.

(** A computation appends to the log only requests that satisfy [P]. *)
Definition appendsOnly {A : Type} (P : Call -> Prop) (m : M A) : Prop :=
  forall w : World,
    exists more : list Call,
      log (remote (snd (m w))) = log (remote w) ++ more /\ Forall P more.

(** A computation settles with a value or stays pending; it does not
    throw. *)
Definition neverThrows {A : Type} (m : M A) : Prop :=
  forall (w : World) (e : JsError), fst (m w) <> Throw e.

(** [l] is [l'] with some elements left out, the order kept. *)
Inductive Subseq {A : Type} : list A -> list A -> Prop :=
| subseq_nil : Subseq [] []
| subseq_skip (x : A) (l l' : list A) : Subseq l l' -> Subseq l (x :: l')
| subseq_take (x : A) (l l' : list A) :
    Subseq l l' -> Subseq (x :: l) (x :: l').

Definition isPut (c : Call) : bool :=
  match c with CallPut _ _ => true | _ => false end.

(** Number of [PUT] requests in a log. *)
Definition countPuts (l : list Call) : nat := List.length (filter isPut l).

(** A request a wave may issue: the [PUT] of a part, or a wait of at most
    ten seconds. *)
Definition putOrWait (c : Call) : Prop :=
  match c with
  | CallPut _ _ => True
  | CallSetTimeout delay => delay <= 10000
  | _ => False
  end.

Definition notAbort (c : Call) : Prop :=
  match c with CallAbort _ => False | _ => True end.

(** The text [ModulesComponent.uploadFile] shows for a caught error. *)
Definition errorText (error : JsError) : string :=
  match error with
  | HttpErrorResponse bodyMessage statusText =>
      ("Upload failed: " ++ or_else bodyMessage statusText)%string
  | Error message => message
  | OtherValue => "Upload failed due to an unexpected error"%string
  end.

(** No dot in a string. *)
Fixpoint noDot (s : string) : bool :=
  match s with
  | EmptyString => true
  | String c rest => negb (Ascii.eqb c "."%char) && noDot rest
  end.

(** The receipts a request hands to the remote, for the two requests
    that carry receipts. *)
Definition carried (c : Call) : option (list PartEtag) :=
  match c with
  | CallNextBatch _ receipts => Some receipts
  | CallComplete _ receipts => Some receipts
  | _ => None
  end.

(** Along the log [l], every list of receipts handed to the remote
    extends the one handed before it, starting from [base]. *)
Fixpoint growing (base : list PartEtag) (l : list Call) : Prop :=
  match l with
  | [] => True
  | c :: rest =>
      match carried c with
      | Some receipts =>
          (exists more, receipts = base ++ more) /\ growing receipts rest
      | None => growing base rest
      end
  end.

(** The last list of receipts handed to the remote along [l], [base]
    when there is none. *)
Fixpoint lastCarried (base : list PartEtag) (l : list Call)
    : list PartEtag :=
  match l with
  | [] => base
  | c :: rest =>
      match carried c with
      | Some receipts => lastCarried receipts rest
      | None => lastCarried base rest
      end
  end.

(* ===================================================================== *)
(** ** Properties of the chunker *)
(* ===================================================================== *)

Section Numbers.

Lemma Qlt_bool_of_Z (a b : Z) :
  JS.Qlt_bool (inject_Z a) (inject_Z b) = (a <? b).
Proof.
  unfold JS.Qlt_bool.
  destruct (Z.ltb_spec a b) as [Hlt | Hge].
  - apply negb_true_iff. apply not_true_is_false. intro H.
    apply Qle_bool_iff in H. rewrite <- Zle_Qle in H. lia.
  - apply negb_false_iff. apply Qle_bool_iff. rewrite <- Zle_Qle. exact Hge.
Qed.

Lemma lt_of_Z (a b : Z) : JS.lt (JS.of_Z a) (JS.of_Z b) = (a <? b).
Proof. apply Qlt_bool_of_Z. Qed.

Lemma Qeq_bool_of_Z_nonzero (b : Z) :
  b <> 0 -> Qeq_bool (inject_Z b) 0 = false.
Proof.
  intro Hb. apply not_true_is_false. intro H.
  apply Qeq_bool_iff in H. unfold Qeq in H. simpl in H. lia.
Qed.

(** [Math.ceil(a / b)] on integers is the integer ceiling of the
    quotient, whatever the sign of the divisor. *)
Lemma Math_ceil_div (a b : Z) :
  b <> 0 ->
  JS.Math_ceil (JS.div (JS.of_Z a) (JS.of_Z b)) = JS.of_Z (ceil_div a b).
Proof.
  intro Hb. unfold JS.div, JS.of_Z at 1 2.
  rewrite (Qeq_bool_of_Z_nonzero b Hb). unfold JS.Math_ceil.
  f_equal. unfold ceil_div, Qceiling. f_equal.
  rewrite Zdiv_Qdiv. apply Qfloor_comp.
  rewrite inject_Z_opp. unfold Qdiv. ring.
Qed.

Lemma ceil_div_bounds (a b : Z) :
  0 < b -> (ceil_div a b - 1) * b < a <= ceil_div a b * b.
Proof.
  intro Hb. unfold ceil_div.
  pose proof (Z.div_mod (- a) b ltac:(lia)) as Hdm.
  pose proof (Z.mod_pos_bound (- a) b Hb) as Hm.
  nia.
Qed.

Lemma ceil_div_nonpos (a b : Z) : 0 <= a -> b < 0 -> ceil_div a b <= 0.
Proof.
  intros Ha Hb. unfold ceil_div.
  pose proof (Z.div_mod (- a) b ltac:(lia)) as Hdm.
  pose proof (Z.mod_neg_bound (- a) b Hb) as Hm.
  nia.
Qed.

End Numbers.

Section Chunker.

Variable file : File.
Variable partSize : Z.

Lemma splitLoop_run (n : Z) :
  forall (k fuel : nat) (i : Z) (chunks : list PartInfo),
    (k < fuel)%nat ->
    n - i = Z.of_nat k ->
    splitLoop fuel file partSize (JS.of_Z n) i chunks
    = Ok (chunks ++ map (chunkAt file partSize) (indices i k)).
Proof.
  induction k as [| k IH]; intros fuel i chunks Hfuel Hk;
    destruct fuel as [| fuel]; try lia; cbn [splitLoop]; rewrite lt_of_Z.
  - replace (i <? n) with false by (symmetry; apply Z.ltb_ge; lia).
    now rewrite app_nil_r.
  - replace (i <? n) with true by (symmetry; apply Z.ltb_lt; lia).
    rewrite IH by lia. cbn [indices map]. now rewrite <- app_assoc.
Qed.

Lemma splitLoop_stops (n : Z) (fuel : nat) (i : Z) (chunks : list PartInfo) :
  n <= i ->
  splitLoop (S fuel) file partSize (JS.of_Z n) i chunks = Ok chunks.
Proof.
  intro Hn. cbn [splitLoop]. rewrite lt_of_Z.
  now replace (i <? n) with false by (symmetry; apply Z.ltb_ge; lia).
Qed.

Lemma splitLoop_never_throws (total : JS.number) :
  forall (fuel : nat) (i : Z) (chunks : list PartInfo) (e : JsError),
    splitLoop fuel file partSize total i chunks <> Throw e.
Proof.
  induction fuel as [| fuel IH]; intros i chunks e; cbn [splitLoop].
  - discriminate.
  - destruct (JS.lt (JS.of_Z i) total); [apply IH | discriminate].
Qed.

Lemma splitLoop_unbounded :
  forall (fuel : nat) (i : Z) (chunks : list PartInfo),
    splitLoop fuel file partSize JS.PInf i chunks = Pending.
Proof.
  induction fuel as [| fuel IH]; intros i chunks; simpl; [reflexivity | apply IH].
Qed.

Lemma length_indices (i : Z) (k : nat) : List.length (indices i k) = k.
Proof. revert i. induction k; intro i; simpl; [reflexivity | now rewrite IHk]. Qed.

Lemma nth_error_indices (k : nat) :
  forall (i : Z) (j : nat),
    (j < k)%nat -> nth_error (indices i k) j = Some (i + Z.of_nat j).
Proof.
  induction k as [| k IH]; intros i j Hj; [lia |].
  destruct j as [| j]; simpl.
  - f_equal. lia.
  - rewrite IH by lia. f_equal. lia.
Qed.

(** The parts the chunker returns, looked up by position. *)
Lemma nth_error_chunks (k j : nat) (part : PartInfo) :
  nth_error (map (chunkAt file partSize) (indices 0 k)) j = Some part ->
  (j < k)%nat /\ part = chunkAt file partSize (Z.of_nat j).
Proof.
  intro H.
  assert (Hj : (j < k)%nat).
  { rewrite <- (length_indices 0 k), <- (length_map (chunkAt file partSize)).
    apply nth_error_Some. congruence. }
  split; [exact Hj |].
  rewrite nth_error_map, (nth_error_indices k 0 j Hj) in H.
  simpl in H. congruence.
Qed.

Lemma split_returns :
  partSize <> 0 ->
  forall fuel : nat,
    (Z.to_nat (ceil_div (file_size file) partSize) < fuel)%nat ->
    splitFileIntoChunks fuel file partSize
    = Ok (map (chunkAt file partSize)
            (indices 0 (Z.to_nat (ceil_div (file_size file) partSize)))).
Proof.
  intros Hp fuel Hfuel. unfold splitFileIntoChunks.
  rewrite (Math_ceil_div _ _ Hp).
  set (n := ceil_div (file_size file) partSize) in *.
  destruct (Z.le_gt_cases n 0) as [Hn | Hn].
  - destruct fuel as [| fuel]; [lia |].
    rewrite splitLoop_stops by lia.
    replace (Z.to_nat n) with O by lia. reflexivity.
  - rewrite (splitLoop_run n (Z.to_nat n)) by lia. reflexivity.
Qed.

Lemma slice_inside (a b : Z) (contentType : string) :
  0 <= a <= b -> b <= file_size file ->
  slice file a b contentType = mkBlob a b contentType.
Proof.
  intros Hab Hb. unfold slice.
  replace (a <? 0) with false by (symmetry; apply Z.ltb_ge; lia).
  replace (b <? 0) with false by (symmetry; apply Z.ltb_ge; lia).
  f_equal; lia.
Qed.

Lemma chunkAt_inside (j : Z) :
  0 < partSize ->
  0 <= j < ceil_div (file_size file) partSize ->
  chunkAt file partSize j
  = mkPartInfo (j + 1)
      (mkBlob (j * partSize)
         (Z.min (j * partSize + partSize) (file_size file))
         (file_type file)).
Proof.
  intros Hp Hj. unfold chunkAt.
  pose proof (ceil_div_bounds (file_size file) partSize Hp) as Hc.
  rewrite slice_inside; [reflexivity | nia | lia].
Qed.

End Chunker.

Lemma partRange_chunkAt (file file' : File) (partSize j : Z) :
  file_size file' = file_size file ->
  partRange (chunkAt file' partSize j) = partRange (chunkAt file partSize j).
Proof.
  intro Hsize. unfold partRange, chunkAt, slice. simpl. now rewrite Hsize.
Qed.

(** C2.  For a non-empty file and a positive part size the chunker
    returns [ceil(fileSize / partSize)] parts, numbered from 1 without
    gap or repetition; part [partNumber] is the byte range from
    [(partNumber - 1) * partSize] to [min(start + partSize, fileSize)],
    the ranges follow one another without gap or overlap and every byte
    of [[0, fileSize)] lies in exactly one of them; the last part has
    [fileSize - (totalParts - 1) * partSize] bytes; and the numbers and
    ranges are the same for any two files of the same size. *)
Theorem split_partitions_file (file : File) (partSize : Z) :
  0 < file_size file ->
  0 < partSize ->
  let size := file_size file in
  let total := ceil_div size partSize in
  exists chunks : list PartInfo,
    (forall fuel : nat,
        (Z.to_nat total < fuel)%nat ->
        splitFileIntoChunks fuel file partSize = Ok chunks) /\
    (Z.of_nat (List.length chunks) = total /\
     (total - 1) * partSize < size <= total * partSize) /\
    (forall (i : nat) (part : PartInfo),
        nth_error chunks i = Some part ->
        partNumber part = Z.of_nat i + 1 /\
        blob_start (blob part) = (partNumber part - 1) * partSize /\
        blob_end (blob part) = Z.min (blob_start (blob part) + partSize) size /\
        blob_start (blob part) < blob_end (blob part) /\
        blob part = partBlob file partSize (partNumber part)) /\
    (forall (i : nat) (a b : PartInfo),
        nth_error chunks i = Some a ->
        nth_error chunks (S i) = Some b ->
        blob_end (blob a) = blob_start (blob b)) /\
    (forall b : Z,
        0 <= b < size ->
        exists (i : nat) (part : PartInfo),
          nth_error chunks i = Some part /\ holds part b /\
          forall (i' : nat) (part' : PartInfo),
            nth_error chunks i' = Some part' -> holds part' b -> i' = i) /\
    (forall (i : nat) (part : PartInfo) (b : Z),
        nth_error chunks i = Some part -> holds part b -> 0 <= b < size) /\
    (exists first last : PartInfo,
        nth_error chunks 0 = Some first /\
        blob_start (blob first) = 0 /\
        nth_error chunks (Z.to_nat (total - 1)) = Some last /\
        blob_end (blob last) = size /\
        blob_size (blob last) = size - (total - 1) * partSize) /\
    (forall (file' : File) (fuel : nat),
        file_size file' = size ->
        (Z.to_nat total < fuel)%nat ->
        exists chunks' : list PartInfo,
          splitFileIntoChunks fuel file' partSize = Ok chunks' /\
          map partRange chunks' = map partRange chunks).
Proof.
  intros Hsize Hp size total.
  pose proof (ceil_div_bounds size partSize Hp) as Hc. fold total in Hc.
  assert (Htotal : 1 <= total) by nia.
  set (k := Z.to_nat total).
  assert (Hk : Z.of_nat k = total) by (unfold k; lia).
  assert (Hle : forall i : nat, (i < k)%nat ->
             Z.of_nat i * partSize + partSize <= (total - 1) * partSize + partSize)
    by (intros i Hi; apply Z.add_le_mono_r, Z.mul_le_mono_nonneg_r; lia).
  assert (Hat : forall (i : nat) (part : PartInfo),
             nth_error (map (chunkAt file partSize) (indices 0 k)) i = Some part ->
             (i < k)%nat /\
             part = mkPartInfo (Z.of_nat i + 1)
                      (mkBlob (Z.of_nat i * partSize)
                         (Z.min (Z.of_nat i * partSize + partSize) size)
                         (file_type file))).
  { intros i part H. apply nth_error_chunks in H. destruct H as [Hi ->].
    split; [exact Hi |]. apply chunkAt_inside; [exact Hp | fold size total; lia]. }
  assert (Hget : forall i : nat, (i < k)%nat ->
             nth_error (map (chunkAt file partSize) (indices 0 k)) i
             = Some (chunkAt file partSize (Z.of_nat i))).
  { intros i Hi. rewrite nth_error_map, (nth_error_indices k 0 i Hi). reflexivity. }
  exists (map (chunkAt file partSize) (indices 0 k)).
  split; [| split; [| split; [| split; [| split; [| split; [| split]]]]]].
  - intros fuel Hfuel. apply split_returns; [lia | exact Hfuel].
  - split; [| exact Hc]. rewrite length_map, length_indices. unfold k. lia.
  - intros i part H. apply Hat in H. destruct H as [Hi ->]. simpl.
    split; [reflexivity |]. split; [lia |]. split; [f_equal; lia |].
    split; [nia |]. unfold partBlob.
    replace (Z.of_nat i + 1 - 1) with (Z.of_nat i) by lia.
    fold size. rewrite slice_inside; [reflexivity | nia | fold size; lia].
  - intros i a b Ha Hb. apply Hat in Ha, Hb.
    destruct Ha as [_ ->], Hb as [Hi ->]. cbn [blob blob_end blob_start].
    specialize (Hle (S i) Hi). rewrite Nat2Z.inj_succ, Z.mul_succ_l in *. lia.
  - intros b Hb.
    pose proof (Z.div_mod b partSize ltac:(lia)) as Hdm.
    pose proof (Z.mod_pos_bound b partSize Hp) as Hm.
    assert (Hq : 0 <= b / partSize < total) by nia.
    exists (Z.to_nat (b / partSize)), (chunkAt file partSize (b / partSize)).
    split; [| split].
    + rewrite Hget by (unfold k; lia). f_equal. f_equal. lia.
    + rewrite chunkAt_inside by (fold size total; lia).
      unfold holds. simpl. fold size. nia.
    + intros i' part' H' Hin. apply Hat in H'. destruct H' as [Hi' ->].
      unfold holds in Hin. simpl in Hin. nia.
  - intros i part b H Hin. apply Hat in H. destruct H as [Hi ->].
    unfold holds in Hin. simpl in Hin. nia.
  - exists (chunkAt file partSize 0), (chunkAt file partSize (total - 1)).
    split; [| split; [| split; [| split]]].
    + rewrite Hget by (unfold k; lia). reflexivity.
    + rewrite chunkAt_inside by (fold size total; lia). reflexivity.
    + rewrite Hget by (unfold k; lia). rewrite Z2Nat.id by lia. reflexivity.
    + rewrite chunkAt_inside by (fold size total; lia). simpl. fold size. lia.
    + rewrite chunkAt_inside by (fold size total; lia).
      unfold blob_size. simpl. fold size. lia.
  - intros file' fuel Hsame Hfuel.
    exists (map (chunkAt file' partSize) (indices 0 k)). split.
    + rewrite split_returns by (rewrite ?Hsame; fold size total; lia).
      rewrite Hsame. reflexivity.
    + rewrite !map_map. apply map_ext. intro j.
      apply partRange_chunkAt. exact Hsame.
Qed.

(** Witness of [split_partitions_file]: the 2,500,000-byte file in parts
    of 1,000,000 bytes is cut into three parts. *)
Lemma split_partitions_file_witness :
  exists chunks : list PartInfo,
    splitFileIntoChunks 4 Scenario.video 1000000 = Ok chunks /\
    Z.of_nat (List.length chunks) = 3.
Proof.
  destruct (split_partitions_file Scenario.video 1000000 eq_refl eq_refl)
    as [chunks [Hrun [[Hlen _] _]]].
  exists chunks. split.
  - apply Hrun. vm_compute. lia.
  - exact Hlen.
Defined.

(** C10.  A zero-byte file yields no part, whatever the positive part
    size: the loop bound is [ceil(0 / partSize) = 0]. *)
Theorem split_empty_file (file : File) (partSize : Z) (fuel : nat) :
  file_size file = 0 ->
  0 < partSize ->
  splitFileIntoChunks (S fuel) file partSize = Ok [].
Proof.
  intros Hsize Hp.
  rewrite split_returns by (rewrite ?Hsize; unfold ceil_div; simpl; lia).
  rewrite Hsize. reflexivity.
Qed.

Lemma split_empty_file_witness :
  splitFileIntoChunks 1 (mkFile "empty.bin" 0 "") 5242880 = Ok [].
Proof.
  apply (split_empty_file (mkFile "empty.bin" 0 "") 5242880 0);
    reflexivity.
Defined.

(** X1.  With a part size of zero and a non-empty file the loop bound is
    [Infinity]: the loop never ends, whatever the fuel. *)
Lemma split_zero_partSize_diverges (file : File) (fuel : nat) :
  0 < file_size file ->
  splitFileIntoChunks fuel file 0 = Pending.
Proof.
  intro Hsize. unfold splitFileIntoChunks.
  replace (JS.Math_ceil (JS.div (JS.of_Z (file_size file)) (JS.of_Z 0)))
    with JS.PInf.
  - apply splitLoop_unbounded.
  - unfold JS.div, JS.of_Z. change (Qeq_bool (inject_Z 0) 0) with true.
    rewrite (Qeq_bool_of_Z_nonzero (file_size file)) by lia.
    replace (Qle_bool 0 (inject_Z (file_size file))) with true; [reflexivity |].
    symmetry. apply Qle_bool_iff. change 0%Q with (inject_Z 0).
    rewrite <- Zle_Qle. lia.
Qed.

Lemma split_never_throws (file : File) (partSize : Z) (fuel : nat)
    (e : JsError) :
  splitFileIntoChunks fuel file partSize <> Throw e.
Proof. apply splitLoop_never_throws. Qed.

(** C7, as stated, fails: with a negative part size the chunker returns
    the empty sequence of parts and throws nothing. *)
Lemma split_invalid_partSize_counterexample :
  splitFileIntoChunks 1 Scenario.video (-1000000) = Ok [] /\
  forall (fuel : nat) (e : JsError),
    splitFileIntoChunks fuel Scenario.video (-1000000) <> Throw e.
Proof.
  split; [reflexivity | intros fuel e; apply split_never_throws].
Qed.

(** C7, amended.  The chunker has no check of the part size.  For a
    negative part size, and for a part size of zero with an empty file,
    it returns the empty sequence of parts without any error; no input
    makes it throw. *)
Theorem split_nonpositive_partSize (file : File) (partSize : Z) (fuel : nat) :
  0 <= file_size file ->
  partSize < 0 \/ (partSize = 0 /\ file_size file = 0) ->
  splitFileIntoChunks (S fuel) file partSize = Ok [] /\
  forall (fuel' : nat) (e : JsError),
    splitFileIntoChunks fuel' file partSize <> Throw e.
Proof.
  intros Hsize Hp. split; [| intros fuel' e; apply split_never_throws].
  destruct Hp as [Hneg | [Hzero Hempty]].
  - rewrite split_returns by
      (pose proof (ceil_div_nonpos _ _ Hsize Hneg); lia).
    replace (Z.to_nat (ceil_div (file_size file) partSize)) with O
      by (pose proof (ceil_div_nonpos _ _ Hsize Hneg); lia).
    reflexivity.
  - unfold splitFileIntoChunks. rewrite Hzero, Hempty. reflexivity.
Qed.

Lemma split_nonpositive_partSize_witness :
  splitFileIntoChunks 1 (mkFile "notes.txt" 10 "text/plain") (-3) = Ok [] /\
  forall (fuel' : nat) (e : JsError),
    splitFileIntoChunks fuel' (mkFile "notes.txt" 10 "text/plain") (-3)
    <> Throw e.
Proof.
  apply (split_nonpositive_partSize (mkFile "notes.txt" 10 "text/plain") (-3) 0).
  - vm_compute. discriminate.
  - left. reflexivity.
Defined.

(* ===================================================================== *)
(** ** Properties of [FileUploadService.uploadPart] *)
(* ===================================================================== *)

Lemma splitLast_app (inner : string) (c : ascii) :
  splitLast (inner ++ String c EmptyString) = Some (inner, c).
Proof.
  induction inner as [| a inner IH]; [reflexivity |].
  cbn [append splitLast]. rewrite IH.
  destruct inner; reflexivity.
Qed.

Lemma splitLast_Some (s init : string) (last : ascii) :
  splitLast s = Some (init, last) -> s = (init ++ String last EmptyString)%string.
Proof.
  revert init. induction s as [| a s IH]; intros init H; [discriminate |].
  cbn [splitLast] in H. destruct s as [| b s].
  - injection H as <- <-. reflexivity.
  - destruct (splitLast (String b s)) as [[i l] |]; [| discriminate].
    injection H as <- <-. cbn [append]. f_equal. now apply IH.
Qed.

Lemma stripQuotes_quoted (inner : string) :
  noLineTerminator inner = true -> stripQuotes (quoted inner) = inner.
Proof.
  intro H. unfold stripQuotes, quoted.
  rewrite Ascii.eqb_refl, splitLast_app, Ascii.eqb_refl, H. reflexivity.
Qed.

Lemma stripQuotes_unquoted (token : string) :
  (forall inner, token <> quoted inner) -> stripQuotes token = token.
Proof.
  intro H. unfold stripQuotes. destruct token as [| c rest]; [reflexivity |].
  destruct (Ascii.eqb_spec c quote) as [-> | _]; [| reflexivity].
  destruct (splitLast rest) as [[inner last] |] eqn:Hsplit; [| reflexivity].
  destruct (Ascii.eqb_spec last quote) as [-> | _]; [| reflexivity].
  apply splitLast_Some in Hsplit. exfalso. apply (H inner). now rewrite Hsplit.
Qed.

Lemma truthy_nonempty (s : string) : truthy s = true <-> s <> ""%string.
Proof.
  unfold truthy. rewrite negb_true_iff.
  destruct (String.eqb_spec s ""); split; congruence.
Qed.

Lemma uploadPart_run (url : string) (body : Blob) (w : World)
    (reply : Reply HttpResponse) (rest : list (Reply HttpResponse)) :
  putQ (remote w) = reply :: rest ->
  FileUploadService.uploadPart url body w
  = (putResult reply, afterPut url body reply w).
Proof.
  intro Hq. unfold FileUploadService.uploadPart, bind, await, putResult, afterPut.
  cbn. rewrite Hq. cbn.
  destruct (answer reply) as [error | response]; reflexivity.
Qed.

Lemma extractEtag_Ok (response : HttpResponse) (etag : string) :
  extractEtag response = Ok etag ->
  exists token,
    headers_get (headers response) "ETag" = Some token /\
    token <> ""%string /\ etag = stripQuotes token.
Proof.
  unfold extractEtag.
  destruct (headers_get (headers response) "ETag") as [token |]; [| discriminate].
  destruct (truthy token) eqn:Ht; cbn; [| discriminate].
  intro H. injection H as <-. exists token.
  repeat split. now apply truthy_nonempty.
Qed.

Lemma extractEtag_token (response : HttpResponse) (token : string) :
  headers_get (headers response) "ETag" = Some token ->
  token <> ""%string ->
  extractEtag response = Ok (stripQuotes token).
Proof.
  intros Hget Hne. unfold extractEtag. rewrite Hget.
  apply truthy_nonempty in Hne. now rewrite Hne.
Qed.

(** C5.  [uploadPart] succeeds exactly when the [PUT] succeeds at
    transport level and its response carries a (non-empty) [ETag] header;
    a response without the header, or with an empty one, is the error
    [No ETag found in response headers]; a transport error is passed on.
    A token wrapped in double quotes comes back without that one pair of
    quotes, and a token that is not wrapped comes back unchanged. *)
Theorem uploadPart_requires_token (url : string) (body : Blob) (w : World)
    (reply : Reply HttpResponse) (rest : list (Reply HttpResponse)) :
  putQ (remote w) = reply :: rest ->
  let outcome := fst (FileUploadService.uploadPart url body w) in
  ((exists etag, outcome = Ok etag) <->
   (exists response token,
       answer reply = inr response /\
       headers_get (headers response) "ETag" = Some token /\
       token <> ""%string)) /\
  (forall response,
      answer reply = inr response ->
      headers_get (headers response) "ETag" = None \/
      headers_get (headers response) "ETag" = Some ""%string ->
      outcome = Throw (Error "No ETag found in response headers")) /\
  (forall error, answer reply = inl error -> outcome = Throw error) /\
  (forall response inner,
      answer reply = inr response ->
      headers_get (headers response) "ETag" = Some (quoted inner) ->
      noLineTerminator inner = true ->
      outcome = Ok inner) /\
  (forall response token,
      answer reply = inr response ->
      headers_get (headers response) "ETag" = Some token ->
      token <> ""%string ->
      (forall inner, token <> quoted inner) ->
      outcome = Ok token).
Proof.
  intros Hq outcome. subst outcome.
  rewrite (uploadPart_run url body w reply rest Hq). cbn [fst].
  unfold putResult.
  split; [| split; [| split; [| split]]].
  - split.
    + intros [etag H]. destruct (answer reply) as [error | response];
        [discriminate |].
      apply extractEtag_Ok in H. destruct H as (token & Hget & Hne & _).
      now exists response, token.
    + intros (response & token & -> & Hget & Hne).
      exists (stripQuotes token). now apply extractEtag_token.
  - intros response -> [Hnone | Hempty]; unfold extractEtag.
    + now rewrite Hnone.
    + now rewrite Hempty.
  - now intros error ->.
  - intros response inner -> Hget Hclean.
    rewrite (extractEtag_token response (quoted inner) Hget) by discriminate.
    now rewrite stripQuotes_quoted.
  - intros response token -> Hget Hne Hplain.
    rewrite (extractEtag_token response token Hget Hne).
    now rewrite stripQuotes_unquoted.
Qed.

Lemma uploadPart_requires_token_witness :
  fst (FileUploadService.uploadPart "https://s3/p1" (mkBlob 0 1000000 "video/mp4")
         (Scenario.startWorld
            (mkRemote [] [] [Scenario.settles (Scenario.stored (quoted "abc"))]
               [] [] 0 [])))
  = Ok "abc"%string.
Proof.
  pose proof
    (uploadPart_requires_token "https://s3/p1" (mkBlob 0 1000000 "video/mp4")
       (Scenario.startWorld
          (mkRemote [] [] [Scenario.settles (Scenario.stored (quoted "abc"))]
             [] [] 0 []))
       (Scenario.settles (Scenario.stored (quoted "abc"))) [] eq_refl)
    as (_ & _ & _ & Hquoted & _).
  apply (Hquoted (Scenario.stored (quoted "abc"))); reflexivity.
Defined.

(* ===================================================================== *)
(** ** Properties of [ModulesComponent.abortUpload] *)
(* ===================================================================== *)

(** C9.  With an active session ([uploadState.uploadId] set), [abortUpload]
    sends one abort request, for that session, and leaves every field of
    the component at its initial value; the [reply] is arbitrary, so this
    holds when the request succeeds and when it fails. *)
Theorem abort_resets_either_way (w : World) (us : UploadState) (id : string)
    (reply : Reply unit) (rest : list (Reply unit)) :
  uploadState (comp w) = Some us ->
  us_uploadId us = Some id ->
  id <> ""%string ->
  abortQ (remote w) = reply :: rest ->
  exists w' : World,
    ModulesComponent.abortUpload w = (Ok tt, w') /\
    log (remote w') = log (remote w) ++ [CallAbort id] /\
    abortQ (remote w') = rest /\
    comp w' = initialComponent.
Proof.
  intros Hstate Hid Hne Hq.
  apply truthy_nonempty in Hne.
  unfold ModulesComponent.abortUpload, bind, read.
  rewrite Hstate, Hid, Hne.
  unfold try_catch, FileUploadService.abortUpload, await. cbn.
  rewrite Hq. cbn.
  destruct (answer reply) as [error | []]; cbn; eexists; repeat split.
Qed.

(** In [abort_resets_either_way] the abort request is rejected by the
    remote, and the state is reset all the same. *)
Lemma abort_resets_either_way_witness :
  exists w' : World,
    ModulesComponent.abortUpload
      (mkWorld (mkRemote [] [] [] [] [Scenario.fails Scenario.networkError] 0 [])
         (mkComponentState true (200 # 3) (Some "x"%string) true
            (Some Scenario.video)
            (Some (mkUploadState (Some "U1"%string) "lecture.mp4" 2500000
                     2000000 "0 KB" "Calculating...")))
         initialService [] [])
    = (Ok tt, w') /\
    log (remote w') = [CallAbort "U1"] /\
    abortQ (remote w') = [] /\
    comp w' = initialComponent.
Proof.
  apply (abort_resets_either_way
           (mkWorld (mkRemote [] [] [] [] [Scenario.fails Scenario.networkError] 0 [])
              (mkComponentState true (200 # 3) (Some "x"%string) true
                 (Some Scenario.video)
                 (Some (mkUploadState (Some "U1"%string) "lecture.mp4" 2500000
                          2000000 "0 KB" "Calculating...")))
              initialService [] [])
           (mkUploadState (Some "U1"%string) "lecture.mp4" 2500000
              2000000 "0 KB" "Calculating...")
           "U1" (Scenario.fails Scenario.networkError) []);
    [reflexivity | reflexivity | discriminate | reflexivity].
Defined.

(* ===================================================================== *)
(** ** Properties of the time-remaining formatter *)
(* ===================================================================== *)

Section Formatter.

Local Open Scope Q_scope.

Lemma inject_Z_pos (d : Z) : (0 < d)%Z -> 0 < inject_Z d.
Proof. intro H. change 0 with (inject_Z 0). now rewrite <- Zlt_Qlt. Qed.

Lemma inject_Z_nonzero (d : Z) : (0 < d)%Z -> ~ inject_Z d == 0.
Proof.
  intros H E. apply inject_Z_pos in H. rewrite E in H.
  exact (Qlt_irrefl 0 H).
Qed.

Lemma floor_div_ge (q : Q) (d c : Z) :
  (0 < d)%Z -> inject_Z (c * d) <= q -> (c <= Qfloor (q / inject_Z d))%Z.
Proof.
  intros Hd H. rewrite <- (Qfloor_Z c). apply Qfloor_resp_le.
  apply Qle_shift_div_l; [now apply inject_Z_pos |].
  now rewrite <- inject_Z_mult.
Qed.

Lemma floor_div_lt (q : Q) (d c : Z) :
  (0 < d)%Z -> q < inject_Z (c * d) -> (Qfloor (q / inject_Z d) < c)%Z.
Proof.
  intros Hd H. rewrite Zlt_Qlt.
  apply Qle_lt_trans with (q / inject_Z d); [apply Qfloor_le |].
  apply Qlt_shift_div_r; [now apply inject_Z_pos |].
  now rewrite <- inject_Z_mult.
Qed.

(** What is left of [q] once the whole multiples of [d] are taken out
    lies in [[0, d)]. *)
Lemma floor_div_rest (q : Q) (d : Z) :
  (0 < d)%Z ->
  0 <= q - inject_Z d * inject_Z (Qfloor (q / inject_Z d)) < inject_Z d.
Proof.
  intro Hd.
  pose proof (inject_Z_pos d Hd) as Hpos.
  pose proof (inject_Z_nonzero d Hd) as Hnz.
  set (x := q / inject_Z d).
  assert (Hq : q == inject_Z d * x) by (unfold x; now rewrite Qmult_div_r).
  pose proof (Qfloor_le x) as Hlo. pose proof (Qlt_floor x) as Hhi.
  rewrite inject_Z_plus in Hhi. change (inject_Z 1) with 1 in Hhi.
  split.
  - apply (Qmult_le_l _ _ (inject_Z d) Hpos) in Hlo.
    rewrite <- Hq in Hlo.
    apply (Qplus_le_l _ _ (inject_Z d * inject_Z (Qfloor x))).
    ring_simplify. exact Hlo.
  - apply (Qmult_lt_l _ _ (inject_Z d) Hpos) in Hhi.
    rewrite <- Hq in Hhi.
    apply (Qplus_lt_l _ _ (inject_Z d * inject_Z (Qfloor x))).
    ring_simplify. ring_simplify in Hhi. exact Hhi.
Qed.

Lemma Qtrunc_nonneg (x : Q) : 0 <= x -> JS.Qtrunc x = Qfloor x.
Proof.
  intro H. destruct x as [n d]. unfold JS.Qtrunc, Qfloor. cbn.
  apply Z.quot_div_nonneg; [| reflexivity].
  unfold Qle in H. cbn in H. lia.
Qed.

Lemma Qlt_bool_false (a b : Q) : b <= a -> JS.Qlt_bool a b = false.
Proof.
  intro H. unfold JS.Qlt_bool. apply negb_false_iff. now apply Qle_bool_iff.
Qed.

Lemma div_nonneg (q : Q) (d : Z) : (0 < d)%Z -> 0 <= q -> 0 <= q / inject_Z d.
Proof.
  intros Hd Hq. apply Qle_shift_div_l; [now apply inject_Z_pos |].
  now rewrite Qmult_0_l.
Qed.

(** [seconds % d] for a finite, non-negative number of seconds. *)
Lemma rem_nonneg (q : Q) (d : Z) :
  (0 < d)%Z -> 0 <= q ->
  JS.rem (JS.Fin q) (JS.of_Z d)
  = JS.Fin (q - inject_Z d * inject_Z (Qfloor (q / inject_Z d))).
Proof.
  intros Hd Hq. unfold JS.rem, JS.of_Z.
  rewrite Qeq_bool_of_Z_nonzero by lia.
  now rewrite Qtrunc_nonneg by now apply div_nonneg.
Qed.

Lemma div_by_integer (x : Q) (d : Z) :
  (0 < d)%Z -> JS.div (JS.Fin x) (JS.of_Z d) = JS.Fin (x / inject_Z d).
Proof.
  intro Hd. unfold JS.div, JS.of_Z. now rewrite Qeq_bool_of_Z_nonzero by lia.
Qed.

Lemma to_string_of_Z (z : Z) : JS.to_string (JS.of_Z z) = JS.Z_to_string z.
Proof. unfold JS.to_string, JS.of_Z. now rewrite Qfloor_Z. Qed.

(** The formatter on a finite, non-negative number of seconds, with the
    three quantities it prints made explicit. *)
Lemma formatTimeRemaining_finite (q : Q) :
  0 <= q ->
  formatTimeRemaining (JS.Fin q)
  = let hours := Qfloor (q / inject_Z 3600) in
    let minutes :=
      Qfloor ((q - inject_Z 3600 * inject_Z hours) / inject_Z 60) in
    let secs := Qfloor (q - inject_Z 60 * inject_Z (Qfloor (q / inject_Z 60))) in
    if (0 <? hours)%Z then
      (JS.Z_to_string hours ++ "h " ++ JS.Z_to_string minutes ++ "m")%string
    else if (0 <? minutes)%Z then
      (JS.Z_to_string minutes ++ "m " ++ JS.Z_to_string secs ++ "s")%string
    else (JS.Z_to_string secs ++ "s")%string.
Proof.
  intro Hq. unfold formatTimeRemaining.
  cbn [JS.isFinite negb orb]. unfold JS.lt at 1. unfold JS.of_Z at 1.
  rewrite Qlt_bool_false by exact Hq.
  rewrite !rem_nonneg by (lia || exact Hq).
  rewrite !div_by_integer by lia.
  cbn [JS.Math_floor]. unfold JS.gt. rewrite !lt_of_Z, !to_string_of_Z.
  reflexivity.
Qed.

End Formatter.

Lemma Qfloor_range (x : Q) (a b : Z) :
  (inject_Z a <= x)%Q -> (x < inject_Z b)%Q -> a <= Qfloor x < b.
Proof.
  intros Ha Hb. split.
  - rewrite <- (Qfloor_Z a). now apply Qfloor_resp_le.
  - rewrite Zlt_Qlt. apply Qle_lt_trans with x; [apply Qfloor_le | exact Hb].
Qed.

(** Dividing by a zero speed never yields a finite number of seconds. *)
Lemma div_by_zero_not_finite (x : JS.number) (b : Q) :
  (b == 0)%Q -> JS.isFinite (JS.div x (JS.Fin b)) = false.
Proof.
  intro Hb. apply Qeq_bool_iff in Hb.
  destruct x as [a | | |]; cbn; rewrite ?Hb; try reflexivity.
  - destruct (Qeq_bool a 0); [reflexivity |].
    destruct (Qle_bool 0 a); reflexivity.
  - destruct (Qle_bool 0 b); reflexivity.
  - destruct (Qle_bool 0 b); reflexivity.
Qed.

Lemma formatTimeRemaining_not_finite (seconds : JS.number) :
  JS.isFinite seconds = false ->
  formatTimeRemaining seconds = "Calculating..."%string.
Proof. intro H. unfold formatTimeRemaining. now rewrite H. Qed.

(** C8.  The formatter answers [Calculating...] for a number of seconds
    that is not finite or is negative, which is what a speed of zero
    produces, in the formatter and in [calculateProgress]; otherwise it
    prints hours and minutes from one hour on, minutes and seconds from
    one minute on, and seconds alone below a minute. *)
Theorem formatTimeRemaining_cases :
  (forall seconds : JS.number,
      JS.isFinite seconds = false \/ JS.lt seconds (JS.of_Z 0) = true ->
      formatTimeRemaining seconds = "Calculating..."%string) /\
  (forall (remaining : JS.number) (speed : Q),
      (speed == 0)%Q ->
      formatTimeRemaining (JS.div remaining (JS.Fin speed))
      = "Calculating..."%string) /\
  (forall (w : World) (uploaded : JS.number) (total : Z) (delta : Q),
      JS.sub uploaded (lastUploadedSize (svc w)) = JS.Fin delta ->
      (delta == 0)%Q ->
      exists (p : UploadProgress) (w' : World),
        UploadService.calculateProgress uploaded total w = (Ok p, w') /\
        up_timeRemaining p = "Calculating..."%string) /\
  (forall q : Q,
      (inject_Z 3600 <= q)%Q ->
      exists hours minutes : Z,
        hours = Qfloor (q / inject_Z 3600) /\ 1 <= hours /\
        minutes = Qfloor ((q - inject_Z 3600 * inject_Z hours) / inject_Z 60) /\
        0 <= minutes < 60 /\
        formatTimeRemaining (JS.Fin q)
        = (JS.Z_to_string hours ++ "h " ++ JS.Z_to_string minutes ++ "m")%string) /\
  (forall q : Q,
      (inject_Z 60 <= q)%Q -> (q < inject_Z 3600)%Q ->
      exists minutes secs : Z,
        minutes = Qfloor (q / inject_Z 60) /\ 1 <= minutes < 60 /\
        secs = Qfloor (q - inject_Z 60 * inject_Z minutes) /\
        0 <= secs < 60 /\
        formatTimeRemaining (JS.Fin q)
        = (JS.Z_to_string minutes ++ "m " ++ JS.Z_to_string secs ++ "s")%string) /\
  (forall q : Q,
      (0 <= q)%Q -> (q < inject_Z 60)%Q ->
      0 <= Qfloor q < 60 /\
      formatTimeRemaining (JS.Fin q)
      = (JS.Z_to_string (Qfloor q) ++ "s")%string).
Proof.
  split; [| split; [| split; [| split; [| split]]]].
  - intros seconds [H | H].
    + now apply formatTimeRemaining_not_finite.
    + unfold formatTimeRemaining. rewrite H. now rewrite orb_true_r.
  - intros remaining speed Hzero.
    apply formatTimeRemaining_not_finite. now apply div_by_zero_not_finite.
  - intros w uploaded total delta Hdelta Hzero.
    unfold UploadService.calculateProgress, bind, Date_now, read, update, ret.
    rewrite Hdelta.
    rewrite (div_by_integer (inject_Z _) 1000 eq_refl : JS.div (JS.of_Z _) _ = _).
    set (elapsedSeconds := (inject_Z _ / inject_Z 1000)%Q).
    destruct (JS.gt _ (JS.of_Z 0)) eqn:Htime.
    + do 2 eexists. split; [reflexivity |]. cbn [up_timeRemaining].
      apply formatTimeRemaining_not_finite.
      assert (Hpos : Qeq_bool elapsedSeconds 0 = false).
      { apply not_true_is_false. intro E. apply Qeq_bool_iff in E.
        unfold JS.gt, JS.lt, JS.of_Z, JS.Qlt_bool in Htime.
        apply negb_true_iff in Htime.
        assert (Hle : Qle_bool elapsedSeconds (inject_Z 0) = true)
          by (apply Qle_bool_iff; rewrite E; discriminate).
        congruence. }
      unfold JS.div at 2. rewrite Hpos.
      apply div_by_zero_not_finite.
      rewrite Hzero. unfold Qdiv. ring.
    + do 2 eexists. split; reflexivity.
  - intros q Hq.
    assert (H0 : (0 <= q)%Q)
      by (apply Qle_trans with (inject_Z 3600); [discriminate | exact Hq]).
    pose proof (floor_div_ge q 3600 1 eq_refl Hq) as Hh.
    pose proof (floor_div_rest q 3600 eq_refl) as [Hlo Hhi].
    do 2 eexists. split; [reflexivity |]. split; [exact Hh |].
    split; [reflexivity |]. split.
    + split.
      * apply (floor_div_ge _ 60 0 eq_refl). exact Hlo.
      * apply (floor_div_lt _ 60 60 eq_refl). exact Hhi.
    + rewrite (formatTimeRemaining_finite q H0). cbv zeta.
      now replace (0 <? Qfloor (q / inject_Z 3600)) with true
        by (symmetry; apply Z.ltb_lt; lia).
  - intros q Hlo Hhi.
    assert (H0 : (0 <= q)%Q)
      by (apply Qle_trans with (inject_Z 60); [discriminate | exact Hlo]).
    assert (Hh : Qfloor (q / inject_Z 3600) = 0).
    { pose proof (floor_div_ge q 3600 0 eq_refl H0).
      pose proof (floor_div_lt q 3600 1 eq_refl Hhi). lia. }
    pose proof (floor_div_ge q 60 1 eq_refl Hlo) as Hm1.
    pose proof (floor_div_lt q 60 60 eq_refl Hhi) as Hm2.
    pose proof (floor_div_rest q 60 eq_refl) as [Hs1 Hs2].
    do 2 eexists. split; [reflexivity |]. split; [lia |].
    split; [reflexivity |]. split; [now apply Qfloor_range |].
    rewrite (formatTimeRemaining_finite q H0). cbv zeta. rewrite Hh.
    change (0 <? 0) with false. cbv iota.
    assert (Hmin : Qfloor ((q - inject_Z 3600 * inject_Z 0) / inject_Z 60)
                   = Qfloor (q / inject_Z 60)).
    { apply Qfloor_comp. unfold Qdiv. ring. }
    rewrite Hmin.
    now replace (0 <? Qfloor (q / inject_Z 60)) with true
      by (symmetry; apply Z.ltb_lt; lia).
  - intros q Hlo Hhi.
    assert (Hh : Qfloor (q / inject_Z 3600) = 0).
    { pose proof (floor_div_ge q 3600 0 eq_refl Hlo).
      assert (Hlt : (q < inject_Z (1 * 3600))%Q)
        by (apply Qlt_trans with (inject_Z 60); [exact Hhi | reflexivity]).
      pose proof (floor_div_lt q 3600 1 eq_refl Hlt). lia. }
    assert (Hm : Qfloor (q / inject_Z 60) = 0).
    { pose proof (floor_div_ge q 60 0 eq_refl Hlo).
      pose proof (floor_div_lt q 60 1 eq_refl Hhi). lia. }
    split; [now apply Qfloor_range |].
    rewrite (formatTimeRemaining_finite q Hlo). cbv zeta. rewrite Hh, Hm.
    change (0 <? 0) with false. cbv iota.
    assert (Hmin : Qfloor ((q - inject_Z 3600 * inject_Z 0) / inject_Z 60) = 0).
    { transitivity (Qfloor (q / inject_Z 60)); [| exact Hm].
      apply Qfloor_comp. unfold Qdiv. ring. }
    rewrite Hmin. change (0 <? 0) with false. cbv iota.
    assert (Hsec : Qfloor (q - inject_Z 60 * inject_Z 0) = Qfloor q).
    { apply Qfloor_comp. ring. }
    now rewrite Hsec.
Qed.

Lemma formatTimeRemaining_cases_witness :
  formatTimeRemaining JS.PInf = "Calculating..."%string /\
  formatTimeRemaining (JS.Fin (inject_Z 3725)) = "1h 2m"%string.
Proof.
  destruct formatTimeRemaining_cases as (Hguard & _ & _ & Hhours & _).
  split.
  - apply Hguard. left. reflexivity.
  - destruct (Hhours (inject_Z 3725)) as (h & m & -> & _ & -> & _ & ->);
      [discriminate | reflexivity].
Defined.

(* ===================================================================== *)
(** ** Properties of [ModulesComponent.uploadBatch] *)
(* ===================================================================== *)

Section Retry.

Variable file : File.
Variable partSizeBytes : Z.
Variable part : PresignedUrl.

Lemma retry_confirmed (fuel : nat) (retryCount : Z)
    (current : list PartEtag) (w : World)
    (reply : Reply HttpResponse) (rest : list (Reply HttpResponse))
    (etag : string) :
  retryCount < ModulesComponent.maxRetries ->
  putQ (remote w) = reply :: rest ->
  putResult reply = Ok etag ->
  ModulesComponent.retryLoop (S fuel) file partSizeBytes part retryCount false
    current w
  = ModulesComponent.retryLoop fuel file partSizeBytes part retryCount true
      (current ++ [mkPartEtag (pu_partNumber part) etag])
      (afterPut (url part)
         (partBlob file partSizeBytes (pu_partNumber part)) reply w).
Proof.
  intros Hcount Hq Hok. cbn [ModulesComponent.retryLoop].
  replace (retryCount <? ModulesComponent.maxRetries) with true
    by (symmetry; now apply Z.ltb_lt).
  cbn [andb negb]. unfold bind at 1. unfold try_catch. unfold bind at 1.
  rewrite (uploadPart_run _ _ _ _ _ Hq), Hok. reflexivity.
Qed.

Lemma retry_failed (fuel : nat) (retryCount : Z)
    (current : list PartEtag) (w : World)
    (reply : Reply HttpResponse) (rest : list (Reply HttpResponse)) :
  retryCount < ModulesComponent.maxRetries ->
  putQ (remote w) = reply :: rest ->
  putFails reply ->
  ModulesComponent.retryLoop (S fuel) file partSizeBytes part retryCount false
    current w
  = ModulesComponent.retryLoop fuel file partSizeBytes part (retryCount + 1)
      false current
      (afterBackoff (retryCount + 1)
         (afterPut (url part)
            (partBlob file partSizeBytes (pu_partNumber part)) reply w)).
Proof.
  intros Hcount Hq [error Hfail]. cbn [ModulesComponent.retryLoop].
  replace (retryCount <? ModulesComponent.maxRetries) with true
    by (symmetry; now apply Z.ltb_lt).
  cbn [andb negb]. unfold bind at 1. unfold try_catch. unfold bind at 1.
  rewrite (uploadPart_run _ _ _ _ _ Hq), Hfail.
  unfold afterBackoff, bind.
  destruct (retryCount + 1 <? ModulesComponent.maxRetries); reflexivity.
Qed.

Lemma retry_stops_on_success (fuel : nat) (retryCount : Z)
    (current : list PartEtag) (w : World) :
  ModulesComponent.retryLoop (S fuel) file partSizeBytes part retryCount true
    current w
  = (Ok (true, current), w).
Proof.
  cbn [ModulesComponent.retryLoop]. now rewrite andb_false_r.
Qed.

Lemma retry_stops_when_exhausted (fuel : nat) (retryCount : Z)
    (current : list PartEtag) (w : World) :
  ModulesComponent.maxRetries <= retryCount ->
  ModulesComponent.retryLoop (S fuel) file partSizeBytes part retryCount false
    current w
  = (Ok (false, current), w).
Proof.
  intro H. cbn [ModulesComponent.retryLoop].
  now replace (retryCount <? ModulesComponent.maxRetries) with false
    by (symmetry; now apply Z.ltb_ge).
Qed.

Lemma putQ_afterPut (u : string) (b : Blob) (reply : Reply HttpResponse)
    (w : World) :
  putQ (remote (afterPut u b reply w)) = tl (putQ (remote w)).
Proof. reflexivity. Qed.

Lemma log_afterPut (u : string) (b : Blob) (reply : Reply HttpResponse)
    (w : World) :
  log (remote (afterPut u b reply w)) = log (remote w) ++ [CallPut u b].
Proof. reflexivity. Qed.

Lemma putQ_afterBackoff (k : Z) (w : World) :
  putQ (remote (afterBackoff k w)) = putQ (remote w).
Proof.
  unfold afterBackoff. destruct (k <? ModulesComponent.maxRetries); reflexivity.
Qed.

Lemma log_afterBackoff_retry (k : Z) (w : World) :
  k < ModulesComponent.maxRetries ->
  log (remote (afterBackoff k w)) = log (remote w) ++ [CallSetTimeout (backoff k)].
Proof.
  intro H. unfold afterBackoff.
  now replace (k <? ModulesComponent.maxRetries) with true
    by (symmetry; now apply Z.ltb_lt).
Qed.

Lemma log_afterBackoff_last (k : Z) (w : World) :
  ModulesComponent.maxRetries <= k ->
  log (remote (afterBackoff k w)) = log (remote w).
Proof.
  intro H. unfold afterBackoff.
  now replace (k <? ModulesComponent.maxRetries) with false
    by (symmetry; now apply Z.ltb_ge).
Qed.

(** One part of a wave, from its first attempt to its last. *)
Lemma retryLoop_run (current : list PartEtag)
    (block : list (Reply HttpResponse)) (outcome : option string)
    (rest : list (Reply HttpResponse)) (w : World) :
  PartRun block outcome ->
  putQ (remote w) = block ++ rest ->
  exists w' : World,
    ModulesComponent.retryLoop (S (Z.to_nat ModulesComponent.maxRetries))
      file partSizeBytes part 0 false current w
    = (Ok (match outcome with Some _ => true | None => false end,
           current ++ receiptsOf [part] [outcome]), w') /\
    putQ (remote w') = rest /\
    log (remote w')
    = log (remote w)
      ++ attemptsTrace (url part)
           (partBlob file partSizeBytes (pu_partNumber part))
           (List.length block).
Proof.
  intros Hrun Hq. change (S (Z.to_nat ModulesComponent.maxRetries)) with 4%nat.
  destruct Hrun as [failures reply etag Hlen Hfail Hok | failures Hlen Hfail].
  - destruct failures as [| f1 [| f2 [| f3 failures]]];
      [| | | cbn in Hlen; lia]; cbn [app] in Hq.
    + rewrite (retry_confirmed _ 0 _ _ _ _ _ eq_refl Hq Hok).
      rewrite retry_stops_on_success.
      eexists. split; [reflexivity |]. split.
      * now rewrite putQ_afterPut, Hq.
      * now rewrite log_afterPut.
    + inversion Hfail as [| ? ? Hf1 _]; subst.
      rewrite (retry_failed _ 0 _ _ _ _ eq_refl Hq Hf1).
      assert (Hq1 : putQ (remote (afterBackoff (0 + 1)
                      (afterPut (url part)
                         (partBlob file partSizeBytes (pu_partNumber part))
                         f1 w))) = reply :: rest)
        by now rewrite putQ_afterBackoff, putQ_afterPut, Hq.
      rewrite (retry_confirmed _ (0 + 1) _ _ _ _ _ eq_refl Hq1 Hok).
      rewrite retry_stops_on_success.
      eexists. split; [reflexivity |]. split.
      * now rewrite putQ_afterPut, Hq1.
      * rewrite log_afterPut, log_afterBackoff_retry, log_afterPut by reflexivity.
        now rewrite <- !app_assoc.
    + inversion Hfail as [| ? ? Hf1 Hfail']; subst.
      inversion Hfail' as [| ? ? Hf2 _]; subst.
      rewrite (retry_failed _ 0 _ _ _ _ eq_refl Hq Hf1).
      assert (Hq1 : putQ (remote (afterBackoff (0 + 1)
                      (afterPut (url part)
                         (partBlob file partSizeBytes (pu_partNumber part))
                         f1 w))) = f2 :: reply :: rest)
        by now rewrite putQ_afterBackoff, putQ_afterPut, Hq.
      rewrite (retry_failed _ (0 + 1) _ _ _ _ eq_refl Hq1 Hf2).
      assert (Hq2 : putQ (remote (afterBackoff (0 + 1 + 1)
                      (afterPut (url part)
                         (partBlob file partSizeBytes (pu_partNumber part))
                         f2 (afterBackoff (0 + 1)
                               (afterPut (url part)
                                  (partBlob file partSizeBytes (pu_partNumber part))
                                  f1 w))))) = reply :: rest)
        by now rewrite putQ_afterBackoff, putQ_afterPut, Hq1.
      rewrite (retry_confirmed _ (0 + 1 + 1) _ _ _ _ _ eq_refl Hq2 Hok).
      rewrite retry_stops_on_success.
      eexists. split; [reflexivity |]. split.
      * now rewrite putQ_afterPut, Hq2.
      * rewrite log_afterPut, log_afterBackoff_retry, log_afterPut,
          log_afterBackoff_retry, log_afterPut by reflexivity.
        now rewrite <- !app_assoc.
  - destruct failures as [| f1 [| f2 [| f3 [| f4 failures]]]];
      try discriminate Hlen; cbn [app] in Hq.
    inversion Hfail as [| ? ? Hf1 Hfail']; subst.
    inversion Hfail' as [| ? ? Hf2 Hfail'']; subst.
    inversion Hfail'' as [| ? ? Hf3 _]; subst.
    rewrite (retry_failed _ 0 _ _ _ _ eq_refl Hq Hf1).
    assert (Hq1 : putQ (remote (afterBackoff (0 + 1)
                    (afterPut (url part)
                       (partBlob file partSizeBytes (pu_partNumber part))
                       f1 w))) = f2 :: f3 :: rest)
      by now rewrite putQ_afterBackoff, putQ_afterPut, Hq.
    rewrite (retry_failed _ (0 + 1) _ _ _ _ eq_refl Hq1 Hf2).
    assert (Hq2 : putQ (remote (afterBackoff (0 + 1 + 1)
                    (afterPut (url part)
                       (partBlob file partSizeBytes (pu_partNumber part))
                       f2 (afterBackoff (0 + 1)
                             (afterPut (url part)
                                (partBlob file partSizeBytes (pu_partNumber part))
                                f1 w))))) = f3 :: rest)
      by now rewrite putQ_afterBackoff, putQ_afterPut, Hq1.
    rewrite (retry_failed _ (0 + 1 + 1) _ _ _ _ eq_refl Hq2 Hf3).
    rewrite retry_stops_when_exhausted by (cbv; discriminate).
    eexists. split; [now rewrite app_nil_r |]. split.
    + now rewrite putQ_afterBackoff, putQ_afterPut, Hq2.
    + rewrite log_afterBackoff_last by (cbv; discriminate).
      rewrite log_afterPut, log_afterBackoff_retry, log_afterPut,
        log_afterBackoff_retry, log_afterPut by reflexivity.
      now rewrite <- !app_assoc.
Qed.

End Retry.

Section Batch.

Variable file : File.
Variable partSizeBytes : Z.

Lemma updateUploadedSize_remote (success : bool) (etags : list PartEtag)
    (w : World) :
  exists w' : World,
    ModulesComponent.updateUploadedSize success partSizeBytes etags w
    = (Ok tt, w') /\ remote w' = remote w.
Proof.
  unfold ModulesComponent.updateUploadedSize, update.
  eexists. split; [reflexivity |].
  destruct (uploadState (comp w)); [destruct success |]; reflexivity.
Qed.

Lemma PartRun_attempts (block : list (Reply HttpResponse))
    (outcome : option string) :
  PartRun block outcome -> (1 <= List.length block <= 3)%nat.
Proof.
  intros [failures reply etag Hlen _ _ | failures Hlen _].
  - rewrite length_app. cbn. lia.
  - lia.
Qed.

Lemma receipts_and_exhausted (parts : list PresignedUrl) :
  forall outcomes : list (option string),
    List.length outcomes = List.length parts ->
    (List.length (receiptsOf parts outcomes) + exhausted outcomes
     = List.length parts)%nat.
Proof.
  induction parts as [| part parts IH]; intros [| [etag |] outcomes] Hlen;
    cbn in *; try lia; specialize (IH outcomes ltac:(lia)); lia.
Qed.

Lemma forEachPart_run (parts : list PresignedUrl) :
  forall (blocks : list (list (Reply HttpResponse)))
         (outcomes : list (option string)) (current : list PartEtag)
         (rest : list (Reply HttpResponse)) (w : World),
    Forall2 PartRun blocks outcomes ->
    List.length blocks = List.length parts ->
    putQ (remote w) = List.concat blocks ++ rest ->
    exists w' : World,
      ModulesComponent.forEachPart file partSizeBytes parts current w
      = (Ok (current ++ receiptsOf parts outcomes), w') /\
      putQ (remote w') = rest /\
      log (remote w')
      = log (remote w) ++ batchTrace file partSizeBytes parts blocks.
Proof.
  induction parts as [| part parts IH];
    intros blocks outcomes current rest w Hruns Hlen Hq.
  - destruct blocks; [| discriminate]. inversion Hruns; subst.
    exists w. cbn. now rewrite !app_nil_r.
  - destruct blocks as [| block blocks]; [discriminate |].
    inversion Hruns as [| ? outcome ? outcomes' Hrun Hruns']; subst.
    cbn [List.concat] in Hq. rewrite <- app_assoc in Hq.
    destruct (retryLoop_run file partSizeBytes part current block outcome _ w
                Hrun Hq) as (w1 & Hloop & Hq1 & Hlog1).
    cbn [ModulesComponent.forEachPart]. unfold bind at 1. rewrite Hloop.
    unfold bind at 1.
    destruct (updateUploadedSize_remote
                (match outcome with Some _ => true | None => false end)
                (current ++ receiptsOf [part] [outcome]) w1)
      as (w2 & Hupdate & Hremote).
    rewrite Hupdate.
    destruct (IH blocks outcomes' (current ++ receiptsOf [part] [outcome])
                rest w2 Hruns' ltac:(cbn in Hlen; lia)
                ltac:(now rewrite Hremote))
      as (w' & Hrest & Hq' & Hlog').
    exists w'. rewrite Hrest, Hq', Hlog', Hremote, Hlog1.
    split; [| split; [reflexivity |]].
    + destruct outcome; cbn; now rewrite <- ?app_assoc, ?app_nil_r.
    + cbn [batchTrace]. now rewrite <- app_assoc.
Qed.

End Batch.

(** C4.  In a wave, whatever the remote answers: each part is attempted
    at least once and at most three times, the first time at once and
    retry [k] after a wait of [min(1000 * 2^k, 10000)] ms; the receipts
    returned are those of the parts that succeeded within three attempts,
    so that their number is the number of parts requested minus the
    number of parts that failed three times.  In particular a part that
    fails twice and then succeeds yields exactly one receipt after waits
    of 2000 and 4000 ms, and a part that fails three times yields none. *)
Theorem uploadBatch_retries (file : File) (partSizeBytes : Z) :
  (forall (parts : list PresignedUrl)
          (blocks : list (list (Reply HttpResponse)))
          (outcomes : list (option string))
          (rest : list (Reply HttpResponse)) (w : World),
      Forall2 PartRun blocks outcomes ->
      List.length blocks = List.length parts ->
      putQ (remote w) = List.concat blocks ++ rest ->
      exists w' : World,
        ModulesComponent.uploadBatch file partSizeBytes parts w
        = (Ok (receiptsOf parts outcomes), w') /\
        putQ (remote w') = rest /\
        log (remote w')
        = log (remote w) ++ batchTrace file partSizeBytes parts blocks /\
        Forall (fun block => (1 <= List.length block <= 3)%nat) blocks /\
        (List.length (receiptsOf parts outcomes) + exhausted outcomes
         = List.length parts)%nat) /\
  (forall (part : PresignedUrl) (f1 f2 reply : Reply HttpResponse)
          (etag : string) (rest : list (Reply HttpResponse)) (w : World),
      putFails f1 -> putFails f2 -> putResult reply = Ok etag ->
      putQ (remote w) = f1 :: f2 :: reply :: rest ->
      exists w' : World,
        ModulesComponent.uploadBatch file partSizeBytes [part] w
        = (Ok [mkPartEtag (pu_partNumber part) etag], w') /\
        log (remote w')
        = log (remote w)
          ++ [CallPut (url part) (partBlob file partSizeBytes (pu_partNumber part));
              CallSetTimeout 2000;
              CallPut (url part) (partBlob file partSizeBytes (pu_partNumber part));
              CallSetTimeout 4000;
              CallPut (url part) (partBlob file partSizeBytes (pu_partNumber part))]) /\
  (forall (part : PresignedUrl) (f1 f2 f3 : Reply HttpResponse)
          (rest : list (Reply HttpResponse)) (w : World),
      putFails f1 -> putFails f2 -> putFails f3 ->
      putQ (remote w) = f1 :: f2 :: f3 :: rest ->
      exists w' : World,
        ModulesComponent.uploadBatch file partSizeBytes [part] w = (Ok [], w') /\
        putQ (remote w') = rest /\
        log (remote w')
        = log (remote w)
          ++ [CallPut (url part) (partBlob file partSizeBytes (pu_partNumber part));
              CallSetTimeout 2000;
              CallPut (url part) (partBlob file partSizeBytes (pu_partNumber part));
              CallSetTimeout 4000;
              CallPut (url part) (partBlob file partSizeBytes (pu_partNumber part))]).
Proof.
  split; [| split].
  - intros parts blocks outcomes rest w Hruns Hlen Hq.
    destruct (forEachPart_run file partSizeBytes parts blocks outcomes [] rest w
                Hruns Hlen Hq) as (w' & Hrun & Hq' & Hlog).
    exists w'. split; [exact Hrun |]. split; [exact Hq' |].
    split; [exact Hlog |]. split.
    + clear - Hruns. induction Hruns as [| block outcome ? ? Hrun _ IH];
        constructor; [exact (PartRun_attempts _ _ Hrun) | exact IH].
    + apply receipts_and_exhausted.
      rewrite <- Hlen. symmetry. exact (Forall2_length Hruns).
  - intros part f1 f2 reply etag rest w Hf1 Hf2 Hok Hq.
    destruct (forEachPart_run file partSizeBytes [part] [[f1; f2; reply]]
                [Some etag] [] rest w) as (w' & Hrun & _ & Hlog).
    + constructor; [| constructor].
      apply (run_confirmed [f1; f2] reply etag); [cbn; lia | | exact Hok].
      constructor; [exact Hf1 | constructor; [exact Hf2 | constructor]].
    + reflexivity.
    + exact Hq.
    + exists w'. split; [exact Hrun |]. rewrite Hlog. reflexivity.
  - intros part f1 f2 f3 rest w Hf1 Hf2 Hf3 Hq.
    destruct (forEachPart_run file partSizeBytes [part] [[f1; f2; f3]]
                [None] [] rest w) as (w' & Hrun & Hq' & Hlog).
    + constructor; [| constructor].
      apply (run_exhausted [f1; f2; f3]); [reflexivity |].
      constructor; [exact Hf1 |].
      constructor; [exact Hf2 | constructor; [exact Hf3 | constructor]].
    + reflexivity.
    + exact Hq.
    + exists w'. split; [exact Hrun |]. split; [exact Hq' |].
      rewrite Hlog. reflexivity.
Qed.

(** In [uploadBatch_retries]: a wave of two parts in which part 1
    succeeds at its third attempt and part 2 fails three times returns
    the one receipt of part 1. *)
Lemma uploadBatch_retries_witness :
  exists w' : World,
    ModulesComponent.uploadBatch Scenario.video 1000000
      [Scenario.url1; Scenario.url2]
      (Scenario.startWorld
         (mkRemote [] []
            [Scenario.fails Scenario.networkError;
             Scenario.settles (mkHttpResponse []);
             Scenario.settles (Scenario.stored "e1");
             Scenario.fails Scenario.networkError;
             Scenario.fails Scenario.networkError;
             Scenario.fails Scenario.networkError]
            [] [] 0 []))
    = (Ok [Scenario.receipt1], w') /\
    putQ (remote w') = [].
Proof.
  destruct
    (proj1 (uploadBatch_retries Scenario.video 1000000)
       [Scenario.url1; Scenario.url2]
       [[Scenario.fails Scenario.networkError;
         Scenario.settles (mkHttpResponse []);
         Scenario.settles (Scenario.stored "e1")];
        [Scenario.fails Scenario.networkError;
         Scenario.fails Scenario.networkError;
         Scenario.fails Scenario.networkError]]
       [Some "e1"%string; None] []
       (Scenario.startWorld
          (mkRemote [] []
             [Scenario.fails Scenario.networkError;
              Scenario.settles (mkHttpResponse []);
              Scenario.settles (Scenario.stored "e1");
              Scenario.fails Scenario.networkError;
              Scenario.fails Scenario.networkError;
              Scenario.fails Scenario.networkError]
             [] [] 0 [])))
    as (w' & Hrun & Hq & _).
  - constructor; [| constructor; [| constructor]].
    + apply (run_confirmed
               [Scenario.fails Scenario.networkError;
                Scenario.settles (mkHttpResponse [])]
               (Scenario.settles (Scenario.stored "e1")) "e1");
        [cbn; lia | | reflexivity].
      constructor; [eexists; reflexivity |].
      constructor; [eexists; reflexivity | constructor].
    + apply (run_exhausted
               [Scenario.fails Scenario.networkError;
                Scenario.fails Scenario.networkError;
                Scenario.fails Scenario.networkError]); [reflexivity |].
      constructor; [eexists; reflexivity |].
      constructor; [eexists; reflexivity |].
      constructor; [eexists; reflexivity | constructor].
  - reflexivity.
  - reflexivity.
  - exists w'. split; [exact Hrun | exact Hq].
Defined.

(* ===================================================================== *)
(** ** Whole runs of the two orchestrators *)
(* ===================================================================== *)

(** C1, on the code of [UploadService.uploadFile].  In a run of two
    waves that confirm parts 1 and 2 and then part 3, the call returns
    the file URL, but the complete-upload request carries the receipt of
    part 3 alone: [prevBatchETags] is overwritten by every wave. *)
Theorem service_finalizes_with_last_wave :
  let run :=
    UploadService.uploadFile 10 Scenario.video
      (Scenario.startWorld Scenario.twoWaves) in
  fst run = Ok "https://cdn/lecture.mp4"%string /\
  log (remote (snd run))
    = [CallInitiate "lecture.mp4" 2500000 VIDEOS "video/mp4";
       CallNextBatch "U1" [];
       CallPut "https://s3/p1" (mkBlob 0 1000000 "video/mp4");
       CallPut "https://s3/p2" (mkBlob 1000000 2000000 "video/mp4");
       CallNextBatch "U1" [Scenario.receipt1; Scenario.receipt2];
       CallPut "https://s3/p3" (mkBlob 2000000 2500000 "video/mp4");
       CallNextBatch "U1" [Scenario.receipt3];
       CallComplete "U1" [Scenario.receipt3]].
Proof. intro run. split; vm_compute; reflexivity. Qed.

(** The sibling orchestrator, [ModulesComponent.uploadFile], on the same
    remote: the complete-upload request carries the receipts of all
    three parts. *)
Lemma component_finalizes_with_all_waves :
  let run :=
    ModulesComponent.uploadFile 10 Scenario.video
      (Scenario.startWorld Scenario.twoWaves) in
  fst run = Ok tt /\
  log (remote (snd run))
    = [CallInitiate "lecture.mp4" 2500000 VIDEOS "video/mp4";
       CallNextBatch "U1" [];
       CallPut "https://s3/p1" (mkBlob 0 1000000 "video/mp4");
       CallPut "https://s3/p2" (mkBlob 1000000 2000000 "video/mp4");
       CallNextBatch "U1" [Scenario.receipt1; Scenario.receipt2];
       CallPut "https://s3/p3" (mkBlob 2000000 2500000 "video/mp4");
       CallNextBatch "U1"
         [Scenario.receipt1; Scenario.receipt2; Scenario.receipt3];
       CallComplete "U1"
         [Scenario.receipt1; Scenario.receipt2; Scenario.receipt3]] /\
  comp (snd run) = initialComponent.
Proof. intro run. repeat split; vm_compute; reflexivity. Qed.

(** C6, on the code of [ModulesComponent.uploadBatch].  In the same run
    [uploadState.uploadedSize] is written three times: 1,000,000 and
    2,000,000 in the first wave, then 1,000,000 in the second, because
    the value is computed from the receipts of the current wave only. *)
Theorem uploadedSize_drops_between_waves :
  uploadedSizeWrites
    (snd (ModulesComponent.uploadFile 10 Scenario.video
            (Scenario.startWorld Scenario.twoWaves)))
  = [1000000; 2000000; 1000000].
Proof. vm_compute. reflexivity. Qed.

(** C3, on the code of [ModulesComponent.resumeUpload].  The user pauses
    during the first wave, which confirms parts 1 and 2, and resumes.
    The resumed run initiates a second session, asks for its first wave
    with no receipt, and uploads parts 1 and 2 again. *)
Theorem resume_starts_over :
  let run :=
    Scenario.pauseThenResume (Scenario.startWorld Scenario.pausedThenResumed) in
  fst run = Ok tt /\
  log (remote (snd run))
    = [CallInitiate "lecture.mp4" 2500000 VIDEOS "video/mp4";
       CallNextBatch "U1" [];
       CallPut "https://s3/p1" (mkBlob 0 1000000 "video/mp4");
       CallPut "https://s3/p2" (mkBlob 1000000 2000000 "video/mp4");
       CallNextBatch "U1" [Scenario.receipt1; Scenario.receipt2];
       CallInitiate "lecture.mp4" 2500000 VIDEOS "video/mp4";
       CallNextBatch "U2" [];
       CallPut "https://s3/p1" (mkBlob 0 1000000 "video/mp4");
       CallPut "https://s3/p2" (mkBlob 1000000 2000000 "video/mp4");
       CallNextBatch "U2" [mkPartEtag 1 "e1b"; mkPartEtag 2 "e2b"];
       CallPut "https://s3/p3" (mkBlob 2000000 2500000 "video/mp4");
       CallNextBatch "U2"
         [mkPartEtag 1 "e1b"; mkPartEtag 2 "e2b"; mkPartEtag 3 "e3b"];
       CallComplete "U2"
         [mkPartEtag 1 "e1b"; mkPartEtag 2 "e2b"; mkPartEtag 3 "e3b"]].
Proof. intro run. split; vm_compute; reflexivity. Qed.

(* ===================================================================== *)
(** ** The log of requests only grows *)
(* ===================================================================== *)

Section LogGrows.

Lemma appends_ret {A : Type} (a : A) : appendsToLog (ret a).
Proof. intro w. exists []. cbn. now rewrite app_nil_r. Qed.

Lemma appends_throw {A : Type} (e : JsError) : appendsToLog (@throw A e).
Proof. intro w. exists []. cbn. now rewrite app_nil_r. Qed.

Lemma appends_lift {A : Type} (r : result A) : appendsToLog (lift r).
Proof. intro w. exists []. cbn. now rewrite app_nil_r. Qed.

Lemma appends_read {A : Type} (f : World -> A) : appendsToLog (read f).
Proof. intro w. exists []. cbn. now rewrite app_nil_r. Qed.

Lemma appends_update (f : World -> World) :
  (forall w, remote (f w) = remote w) -> appendsToLog (update f).
Proof. intros Hf w. exists []. cbn. now rewrite Hf, app_nil_r. Qed.

Lemma appends_update_comp (f : ComponentState -> ComponentState) :
  appendsToLog (update_comp f).
Proof. apply appends_update. reflexivity. Qed.

Lemma appends_bind {A B : Type} (m : M A) (k : A -> M B) :
  appendsToLog m -> (forall a, appendsToLog (k a)) -> appendsToLog (bind m k).
Proof.
  intros Hm Hk w. unfold bind. destruct (Hm w) as [more Hmore].
  destruct (m w) as [[a | e |] w1]; cbn in Hmore.
  - destruct (Hk a w1) as [more' Hmore'].
    exists (more ++ more'). now rewrite Hmore', Hmore, app_assoc.
  - now exists more.
  - now exists more.
Qed.

Lemma appends_try_catch {A : Type} (m : M A) (handler : JsError -> M A) :
  appendsToLog m -> (forall e, appendsToLog (handler e)) ->
  appendsToLog (try_catch m handler).
Proof.
  intros Hm Hh w. unfold try_catch. destruct (Hm w) as [more Hmore].
  destruct (m w) as [[a | e |] w1]; cbn in Hmore.
  - now exists more.
  - destruct (Hh e w1) as [more' Hmore'].
    exists (more ++ more'). now rewrite Hmore', Hmore, app_assoc.
  - now exists more.
Qed.

Lemma appends_try_finally {A : Type} (m : M A) (cleanup : World -> World) :
  appendsToLog m -> (forall w, remote (cleanup w) = remote w) ->
  appendsToLog (try_finally m cleanup).
Proof.
  intros Hm Hc w. unfold try_finally. destruct (Hm w) as [more Hmore].
  destruct (m w) as [[a | e |] w1]; cbn in *; exists more;
    now rewrite ?Hc.
Qed.

Lemma appends_attempt {A : Type} (m : M A) :
  appendsToLog m -> appendsToLog (attempt m).
Proof.
  intros Hm w. unfold attempt. destruct (Hm w) as [more Hmore].
  destruct (m w) as [[a | e |] w1]; now exists more.
Qed.

(** An awaited call puts its request in the log, and nothing else. *)
Lemma await_log {A : Type} (call : Call) (queue : Remote -> list (Reply A))
    (with_queue : list (Reply A) -> Remote -> Remote) (w : World) :
  (forall q r, log (with_queue q r) = log r) ->
  log (remote (snd (await call queue with_queue w)))
  = log (remote w) ++ [call].
Proof.
  intro Hq. unfold await.
  destruct (queue _) as [| reply rest]; [reflexivity |].
  destruct (answer reply); cbn; now rewrite Hq.
Qed.

Lemma appends_await {A : Type} (call : Call)
    (queue : Remote -> list (Reply A))
    (with_queue : list (Reply A) -> Remote -> Remote) :
  (forall q r, log (with_queue q r) = log r) ->
  appendsToLog (await call queue with_queue).
Proof. intros Hq w. exists [call]. now apply await_log. Qed.

Lemma appends_sleep (delay : Z) : appendsToLog (sleep delay).
Proof. intro w. now exists [CallSetTimeout delay]. Qed.

(** A computation that starts with an awaited call has that call next in
    the log, whatever follows. *)
Lemma bind_await_log {A B : Type} (call : Call)
    (queue : Remote -> list (Reply A))
    (with_queue : list (Reply A) -> Remote -> Remote) (k : A -> M B)
    (w : World) :
  (forall q r, log (with_queue q r) = log r) ->
  (forall a, appendsToLog (k a)) ->
  exists more : list Call,
    log (remote (snd (bind (await call queue with_queue) k w)))
    = log (remote w) ++ call :: more.
Proof.
  intros Hq Hk. unfold bind.
  pose proof (await_log call queue with_queue w Hq) as Hlog.
  destruct (await call queue with_queue w) as [[a | e |] w1]; cbn in Hlog.
  - destruct (Hk a w1) as [more Hmore]. exists more.
    now rewrite Hmore, Hlog, <- app_assoc.
  - exists []. exact Hlog.
  - exists []. exact Hlog.
Qed.

Lemma try_finally_log {A : Type} (m : M A) (cleanup : World -> World)
    (w : World) :
  (forall w0, remote (cleanup w0) = remote w0) ->
  log (remote (snd (try_finally m cleanup w))) = log (remote (snd (m w))).
Proof.
  intro Hc. unfold try_finally.
  destruct (m w) as [[a | e |] w1]; cbn; now rewrite ?Hc.
Qed.

End LogGrows.

Section ComponentLog.

Variable file : File.
Variable partSizeBytes : Z.

Lemma appends_uploadPart (u : string) (b : Blob) :
  appendsToLog (FileUploadService.uploadPart u b).
Proof.
  apply appends_bind.
  - now apply appends_await.
  - intro response. apply appends_lift.
Qed.

Lemma appends_retryLoop (part : PresignedUrl) :
  forall (fuel : nat) (retryCount : Z) (success : bool)
         (current : list PartEtag),
    appendsToLog
      (ModulesComponent.retryLoop fuel file partSizeBytes part retryCount
         success current).
Proof.
  induction fuel as [| fuel IH]; intros retryCount success current;
    cbn [ModulesComponent.retryLoop].
  - apply appends_lift.
  - destruct ((retryCount <? ModulesComponent.maxRetries) && negb success);
      [| apply appends_ret].
    apply appends_bind.
    + apply appends_try_catch.
      * apply appends_bind; [apply appends_uploadPart |].
        intro e. apply appends_ret.
      * intro e. apply appends_bind; [| intros _; apply appends_ret].
        destruct (retryCount + 1 <? ModulesComponent.maxRetries);
          [apply appends_sleep | apply appends_ret].
    + intros [[retryCount' success'] etags']. apply IH.
Qed.

Lemma appends_updateUploadedSize (success : bool) (etags : list PartEtag) :
  appendsToLog
    (ModulesComponent.updateUploadedSize success partSizeBytes etags).
Proof.
  apply appends_update. intro w.
  destruct (uploadState (comp w)); [destruct success |]; reflexivity.
Qed.

Lemma appends_forEachPart :
  forall (parts : list PresignedUrl) (current : list PartEtag),
    appendsToLog
      (ModulesComponent.forEachPart file partSizeBytes parts current).
Proof.
  induction parts as [| part parts IH]; intro current;
    cbn [ModulesComponent.forEachPart].
  - apply appends_ret.
  - apply appends_bind; [apply appends_retryLoop |].
    intros [success etags].
    apply appends_bind; [apply appends_updateUploadedSize |].
    intros _. apply IH.
Qed.

Lemma appends_getNextBatchUrls (id : string) (etags : list PartEtag) :
  appendsToLog (FileUploadService.getNextBatchUrls id etags).
Proof. now apply appends_await. Qed.

Lemma appends_waveLoop (id : string) :
  forall (fuel : nat) (complete : bool) (batch : BatchUploadResponse)
         (etags : list PartEtag),
    appendsToLog
      (ModulesComponent.waveLoop fuel file partSizeBytes id complete batch
         etags).
Proof.
  induction fuel as [| fuel IH]; intros complete batch etags;
    cbn [ModulesComponent.waveLoop].
  - apply appends_lift.
  - apply appends_bind; [apply appends_read |]. intro paused.
    destruct (negb complete && negb paused); [| apply appends_ret].
    apply appends_bind.
    + apply appends_try_catch.
      * apply appends_bind; [apply appends_forEachPart |]. intro current.
        apply appends_bind; [apply appends_getNextBatchUrls |]. intro batch'.
        apply appends_bind; [apply appends_update_comp |]. intros _.
        apply appends_ret.
      * intro e. apply appends_bind; [apply appends_read |]. intro paused'.
        destruct paused'; [apply appends_ret | apply appends_throw].
    + intros [[[complete' batch'] etags'] |]; [apply IH | apply appends_ret].
Qed.

Lemma appends_resetUploadState : appendsToLog ModulesComponent.resetUploadState.
Proof.
  unfold ModulesComponent.resetUploadState.
  repeat (apply appends_bind; [apply appends_update_comp | intros _]).
  apply appends_update_comp.
Qed.

Lemma appends_catchBlock (id : option string) (e : JsError) :
  appendsToLog (ModulesComponent.catchBlock id e).
Proof.
  apply appends_bind; [apply appends_update_comp |]. intros _.
  destruct id as [id |]; [| apply appends_ret].
  destruct (truthy id); [| apply appends_ret].
  apply appends_try_catch; [now apply appends_await |].
  intros _. apply appends_ret.
Qed.

End ComponentLog.

(** X19.  Whenever the user resumes with a file selected and the remote accepts
    the initiation, the next two requests are a new initiation and a
    request for the first wave that carries no receipt, whatever the
    paused run had confirmed. *)
Lemma resume_always_reinitiates (fuel : nat) (w : World) (file : File)
    (reply : Reply InitiateUploadResponse)
    (rest : list (Reply InitiateUploadResponse))
    (initResponse : InitiateUploadResponse) :
  selectedFile (comp w) = Some file ->
  initiateQ (remote w) = reply :: rest ->
  answer reply = inr initResponse ->
  uploadId initResponse <> ""%string ->
  exists more : list Call,
    log (remote (snd (ModulesComponent.resumeUpload fuel w)))
    = log (remote w)
      ++ CallInitiate (file_name file) (file_size file) VIDEOS
           (or_else (Some (file_type file)) "application/octet-stream")
      :: CallNextBatch (uploadId initResponse) []
      :: more.
Proof.
  intros Hfile Hq Hanswer Hid. apply truthy_nonempty in Hid.
  unfold ModulesComponent.resumeUpload.
  unfold bind at 1. cbn [update_comp update].
  unfold bind at 1. cbn [read comp with_comp selectedFile set_isPaused].
  rewrite Hfile. unfold ModulesComponent.uploadFile.
  unfold bind at 1. cbn [read comp with_comp isPaused set_isPaused].
  unfold bind at 1. cbn [update_comp update].
  unfold bind at 1. cbn [update_comp update].
  rewrite try_finally_log
    by (intro w0; destruct (isPaused (comp w0)); reflexivity).
  match goal with
  | |- context [bind (attempt ?m) ?k ?w0] =>
      set (start := w0);
      assert (Hinit : exists w1,
                 attempt m start = (Ok (inr initResponse), w1) /\
                 log (remote w1) = log (remote w) ++
                   [CallInitiate (file_name file) (file_size file) VIDEOS
                      (or_else (Some (file_type file))
                         "application/octet-stream")])
  end.
  { unfold attempt, FileUploadService.initiateFileUpload, await.
    subst start. cbn. rewrite Hq. cbn. rewrite Hanswer.
    destruct (pausePressed reply); eexists; split; reflexivity. }
  destruct Hinit as (w1 & Hinit & Hlog1).
  unfold bind at 1. rewrite Hinit.
  assert (Hnext : exists more,
             log (remote (snd
               (try_catch
                  (ModulesComponent.afterInitiate fuel file initResponse)
                  (ModulesComponent.catchBlock (Some (uploadId initResponse)))
                  w1)))
             = log (remote w1) ++ CallNextBatch (uploadId initResponse) [] :: more).
  { unfold try_catch, ModulesComponent.afterInitiate.
    unfold bind at 1. cbn [update_comp update].
    unfold bind at 1. cbn [update_comp update].
    rewrite Hid. cbn [negb].
    match goal with
    | |- context [bind (FileUploadService.getNextBatchUrls ?id ?etags) ?k ?w2] =>
        destruct (bind_await_log (CallNextBatch id etags) batchQ with_batchQ
                    k w2 ltac:(reflexivity)) as [more Hmore]
    end.
    - intro batch. apply appends_bind; [apply appends_waveLoop |].
      intros [etags |]; [| apply appends_ret].
      apply appends_bind; [apply appends_read |]. intros [|]; cbn [negb].
      + apply appends_ret.
      + apply appends_bind; [now apply appends_await |].
        intros _. apply appends_resetUploadState.
    - unfold FileUploadService.getNextBatchUrls in *.
      cbn [remote with_comp] in Hmore.
      match goal with
      | |- context [match ?run with _ => _ end] =>
          destruct run as [[[] | e |] w3] eqn:Hrun; cbn [snd] in Hmore
      end.
      + exists more. exact Hmore.
      + destruct (appends_catchBlock (Some (uploadId initResponse)) e w3)
          as [more' Hmore'].
        exists (more ++ more'). rewrite Hmore', Hmore.
        now rewrite <- app_assoc.
      + exists more. exact Hmore. }
  destruct Hnext as [more Hnext].
  exists more. rewrite Hnext, Hlog1, <- app_assoc. reflexivity.
Qed.

(* ===================================================================== *)
(** ** The progress tracker on the specification's example *)
(* ===================================================================== *)

(** A file of 1000 bytes, nothing uploaded at time 0 and 500 bytes
    uploaded one second later: the speed reads [500.0 B] and the time
    remaining [1s]. *)
Example progress_after_one_second :
  fst (UploadService.calculateProgress (JS.of_Z 500) 1000
         (mkWorld (mkRemote [] [] [] [] [] 1000 []) initialComponent
            (mkServiceState 0 (JS.of_Z 0)) [] []))
  = Ok (mkUploadProgress (JS.Fin (50000 # 1000)) (JS.of_Z 500)
          "500.0 B" "1s").
Proof. vm_compute. reflexivity. Qed.

(* ===================================================================== *)
(** ** [uploadedSize] inside one wave *)
(* ===================================================================== *)

Section UploadedSize.

Variable file : File.
Variable partSizeBytes : Z.
Hypothesis partSize_nonneg : 0 <= partSizeBytes.

Lemma uploadPart_keeps_progress (u : string) (b : Blob) (w : World) :
  uploadedSizeWrites (snd (FileUploadService.uploadPart u b w))
  = uploadedSizeWrites w /\
  trackedSize (snd (FileUploadService.uploadPart u b w)) = trackedSize w.
Proof.
  unfold FileUploadService.uploadPart, bind, await, trackedSize.
  destruct (putQ _) as [| reply rest]; [split; reflexivity |].
  destruct (answer reply) as [e | response]; cbn;
    [| destruct (extractEtag response)];
    destruct (pausePressed reply); split; reflexivity.
Qed.

Lemma retryLoop_keeps_progress (part : PresignedUrl) :
  forall (fuel : nat) (retryCount : Z) (success : bool)
         (current : list PartEtag) (w w' : World)
         (r : result (bool * list PartEtag)),
    ModulesComponent.retryLoop fuel file partSizeBytes part retryCount
      success current w = (r, w') ->
    uploadedSizeWrites w' = uploadedSizeWrites w /\
    trackedSize w' = trackedSize w /\
    forall (success' : bool) (etags : list PartEtag),
      r = Ok (success', etags) ->
      (List.length current <= List.length etags)%nat.
Proof.
  induction fuel as [| fuel IH]; intros retryCount success current w w' r Hrun;
    cbn [ModulesComponent.retryLoop] in Hrun.
  - injection Hrun as <- <-. repeat split. discriminate.
  - destruct ((retryCount <? ModulesComponent.maxRetries) && negb success).
    2: { injection Hrun as <- <-. repeat split.
         intros s e H. injection H as _ <-. lia. }
    unfold bind at 1 in Hrun. unfold try_catch in Hrun.
    unfold bind at 1 in Hrun.
    match type of Hrun with
    | context [FileUploadService.uploadPart ?u ?b w] =>
        destruct (uploadPart_keeps_progress u b w) as [Hw Ht];
        destruct (FileUploadService.uploadPart u b w) as [[etag | e |] w1]
    end; cbn [snd] in Hw, Ht.
    + cbn [ret] in Hrun.
      destruct (IH _ _ _ _ _ _ Hrun) as (Hw' & Ht' & Hlen).
      rewrite Hw', Ht', Hw, Ht. repeat split.
      intros s e H. specialize (Hlen s e H). rewrite length_app in Hlen.
      cbn in Hlen. lia.
    + unfold bind in Hrun.
      destruct (retryCount + 1 <? ModulesComponent.maxRetries);
        cbn [sleep update ret] in Hrun;
        destruct (IH _ _ _ _ _ _ Hrun) as (Hw' & Ht' & Hlen);
        rewrite Hw', Ht'; cbn; rewrite <- Hw, <- Ht; repeat split; exact Hlen.
    + injection Hrun as <- <-. rewrite Hw, Ht. repeat split. discriminate.
Qed.

Lemma nondecreasing_cons (v : Z) (l : list Z) :
  Forall (fun x => v <= x) l -> nondecreasing l -> nondecreasing (v :: l).
Proof.
  intros Hall Hl. destruct l as [| a l]; [exact I |].
  split; [now inversion Hall | exact Hl].
Qed.

Lemma forEachPart_writes :
  forall (parts : list PresignedUrl) (current : list PartEtag) (w : World),
    exists new : list Z,
      uploadedSizeWrites
        (snd (ModulesComponent.forEachPart file partSizeBytes parts current w))
      = uploadedSizeWrites w ++ new /\
      nondecreasing new /\
      Forall (fun v =>
                forall size, trackedSize w = Some size ->
                  Z.min (Z.of_nat (List.length current) * partSizeBytes) size <= v)
        new.
Proof.
  induction parts as [| part parts IH]; intros current w;
    cbn [ModulesComponent.forEachPart].
  - exists []. cbn. rewrite app_nil_r. repeat split. constructor.
  - unfold bind at 1.
    destruct (ModulesComponent.retryLoop _ file partSizeBytes part 0 false
                current w) as [r w1] eqn:Hrun.
    destruct (retryLoop_keeps_progress part _ _ _ _ _ _ _ Hrun)
      as (Hw & Ht & Hlen).
    destruct r as [[success etags] | e |].
    2, 3: exists []; cbn; rewrite app_nil_r, Hw; repeat split; constructor.
    specialize (Hlen success etags eq_refl).
    unfold bind at 1.
    unfold ModulesComponent.updateUploadedSize at 1. unfold update at 1.
    unfold trackedSize in Ht.
    destruct (uploadState (comp w1)) as [us |] eqn:Hus;
      [destruct success |].
    + match goal with
      | |- context [ModulesComponent.forEachPart _ _ parts etags ?w2] =>
          destruct (IH etags w2) as (new & Hnew & Hsorted & Hall)
      end.
      cbn [uploadedSizeWrites] in Hnew.
      exists (Z.min (Z.of_nat (List.length etags) * partSizeBytes) (fileSize us)
              :: new).
      rewrite Hnew, Hw, <- app_assoc. split; [reflexivity |]. split.
      * apply nondecreasing_cons; [| exact Hsorted].
        eapply Forall_impl; [| exact Hall]. intros v Hv. apply Hv.
        reflexivity.
      * constructor.
        -- intros size Hsize. unfold trackedSize in Hsize.
           rewrite <- Ht in Hsize. injection Hsize as <-.
           apply Z.min_le_compat_r. nia.
        -- eapply Forall_impl; [| exact Hall]. intros v Hv size Hsize.
           unfold trackedSize in Hsize. rewrite <- Ht in Hsize.
           injection Hsize as <-.
           etransitivity; [| apply Hv; reflexivity].
           apply Z.min_le_compat_r. nia.
    + destruct (IH etags w1) as (new & Hnew & Hsorted & Hall).
      exists new. rewrite Hnew, Hw. split; [reflexivity |].
      split; [exact Hsorted |].
      eapply Forall_impl; [| exact Hall]. intros v Hv size Hsize.
      unfold trackedSize in Hsize, Hv. rewrite <- Ht in Hsize. rewrite Hus in *.
      injection Hsize as <-.
      etransitivity; [| apply Hv; reflexivity].
      apply Z.min_le_compat_r. nia.
    + destruct (IH etags w1) as (new & Hnew & Hsorted & Hall).
      exists new. rewrite Hnew, Hw. split; [reflexivity |].
      split; [exact Hsorted |].
      eapply Forall_impl; [| exact Hall]. intros v Hv size Hsize.
      unfold trackedSize in Hsize. rewrite <- Ht in Hsize. discriminate.
Qed.

(** X17.  Inside one wave the values written to [uploadedSize] never go
    down. *)
Lemma uploadedSize_grows_within_wave (parts : list PresignedUrl) (w : World) :
  exists new : list Z,
    uploadedSizeWrites
      (snd (ModulesComponent.uploadBatch file partSizeBytes parts w))
    = uploadedSizeWrites w ++ new /\
    nondecreasing new.
Proof.
  destruct (forEachPart_writes parts [] w) as (new & Hnew & Hsorted & _).
  now exists new.
Qed.

End UploadedSize.

(* ===================================================================== *)
(** ** What a computation may append, and whether it may throw *)
(* ===================================================================== *)

Section Combinators.

Context {A B : Type}.
Variable P : Call -> Prop.

Lemma only_ret (a : A) : appendsOnly P (ret a).
Proof. intro w. exists []. cbn. rewrite app_nil_r. now split. Qed.

Lemma only_throw (e : JsError) : appendsOnly P (@throw A e).
Proof. intro w. exists []. cbn. rewrite app_nil_r. now split. Qed.

Lemma only_lift (r : result A) : appendsOnly P (lift r).
Proof. intro w. exists []. cbn. rewrite app_nil_r. now split. Qed.

Lemma only_read (f : World -> A) : appendsOnly P (read f).
Proof. intro w. exists []. cbn. rewrite app_nil_r. now split. Qed.

Lemma only_update (f : World -> World) :
  (forall w, remote (f w) = remote w) -> appendsOnly P (update f).
Proof. intros Hf w. exists []. cbn. rewrite Hf, app_nil_r. now split. Qed.

Lemma only_update_comp (f : ComponentState -> ComponentState) :
  appendsOnly P (update_comp f).
Proof. apply only_update. reflexivity. Qed.

Lemma only_bind (m : M A) (k : A -> M B) :
  appendsOnly P m -> (forall a, appendsOnly P (k a)) ->
  appendsOnly P (bind m k).
Proof.
  intros Hm Hk w. unfold bind. destruct (Hm w) as (more & Hmore & HP).
  destruct (m w) as [[a | e |] w1]; cbn in Hmore.
  - destruct (Hk a w1) as (more' & Hmore' & HP').
    exists (more ++ more'). rewrite Hmore', Hmore, app_assoc.
    split; [reflexivity | now apply Forall_app].
  - now exists more.
  - now exists more.
Qed.

Lemma only_try_catch (m : M A) (handler : JsError -> M A) :
  appendsOnly P m -> (forall e, appendsOnly P (handler e)) ->
  appendsOnly P (try_catch m handler).
Proof.
  intros Hm Hh w. unfold try_catch. destruct (Hm w) as (more & Hmore & HP).
  destruct (m w) as [[a | e |] w1]; cbn in Hmore.
  - now exists more.
  - destruct (Hh e w1) as (more' & Hmore' & HP').
    exists (more ++ more'). rewrite Hmore', Hmore, app_assoc.
    split; [reflexivity | now apply Forall_app].
  - now exists more.
Qed.

Lemma only_attempt (m : M A) : appendsOnly P m -> appendsOnly P (attempt m).
Proof.
  intros Hm w. unfold attempt. destruct (Hm w) as (more & Hmore & HP).
  destruct (m w) as [[a | e |] w1]; now exists more.
Qed.

Lemma only_await (call : Call) (queue : Remote -> list (Reply A))
    (with_queue : list (Reply A) -> Remote -> Remote) :
  (forall q r, log (with_queue q r) = log r) ->
  P call ->
  appendsOnly P (await call queue with_queue).
Proof.
  intros Hq Hcall w. exists [call]. split; [now apply await_log |].
  now constructor.
Qed.

Lemma quiet_ret (a : A) : neverThrows (ret a).
Proof. intros w e. discriminate. Qed.

Lemma quiet_read (f : World -> A) : neverThrows (read f).
Proof. intros w e. discriminate. Qed.

Lemma quiet_bind (m : M A) (k : A -> M B) :
  neverThrows m -> (forall a, neverThrows (k a)) -> neverThrows (bind m k).
Proof.
  intros Hm Hk w e. unfold bind. specialize (Hm w).
  destruct (m w) as [[a | e' |] w1]; cbn in *.
  - apply Hk.
  - now destruct (Hm e').
  - discriminate.
Qed.

(** A [try] whose handler does not throw does not throw. *)
Lemma quiet_try_catch (m : M A) (handler : JsError -> M A) :
  (forall e, neverThrows (handler e)) -> neverThrows (try_catch m handler).
Proof.
  intros Hh w e. unfold try_catch.
  destruct (m w) as [[a | e' |] w1]; cbn; [discriminate | apply Hh | discriminate].
Qed.

Lemma quiet_try_finally (m : M A) (cleanup : World -> World) :
  neverThrows m -> neverThrows (try_finally m cleanup).
Proof.
  intros Hm w e. unfold try_finally. specialize (Hm w).
  destruct (m w) as [[a | e' |] w1]; cbn in *;
    [discriminate | now destruct (Hm e') | discriminate].
Qed.

Lemma quiet_attempt (m : M A) : neverThrows (attempt m).
Proof.
  intros w e. unfold attempt. destruct (m w) as [[a | e' |] w1]; discriminate.
Qed.

End Combinators.

Lemma quiet_update (f : World -> World) : neverThrows (update f).
Proof. intros w e. discriminate. Qed.

Lemma only_sleep (P : Call -> Prop) (delay : Z) :
  P (CallSetTimeout delay) -> appendsOnly P (sleep delay).
Proof. intros HP w. exists [CallSetTimeout delay]. split; [reflexivity | now constructor]. Qed.

Lemma only_try_finally {A : Type} (P : Call -> Prop) (m : M A)
    (cleanup : World -> World) :
  appendsOnly P m -> (forall w, remote (cleanup w) = remote w) ->
  appendsOnly P (try_finally m cleanup).
Proof.
  intros Hm Hc w. rewrite try_finally_log by exact Hc. apply Hm.
Qed.

(* ===================================================================== *)
(** ** [ModulesComponent.uploadFile]: how errors surface *)
(* ===================================================================== *)

Lemma quiet_update_comp (f : ComponentState -> ComponentState) :
  neverThrows (update_comp f).
Proof. apply quiet_update. Qed.

Lemma quiet_catchBlock (id : option string) (error : JsError) :
  neverThrows (ModulesComponent.catchBlock id error).
Proof.
  apply quiet_bind; [apply quiet_update_comp |]. intros _.
  destruct id as [id |]; [| apply quiet_ret].
  destruct (truthy id); [| apply quiet_ret].
  apply quiet_try_catch. intros _. apply quiet_ret.
Qed.

(** X9.  [uploadFile] of the component never rejects: whatever the remote
    does, the promise is fulfilled or stays pending. *)
Theorem component_uploadFile_never_throws (fuel : nat) (file : File)
    (w : World) (e : JsError) :
  fst (ModulesComponent.uploadFile fuel file w) <> Throw e.
Proof.
  revert w e. change (neverThrows (ModulesComponent.uploadFile fuel file)).
  apply quiet_bind; [apply quiet_read |]. intros [|]; [apply quiet_ret |].
  apply quiet_bind; [apply quiet_update_comp |]. intros _.
  apply quiet_bind; [apply quiet_update_comp |]. intros _.
  apply quiet_try_finally.
  apply quiet_bind; [apply quiet_attempt |].
  intros [error | initResponse].
  - apply quiet_catchBlock.
  - apply quiet_try_catch. intro error. apply quiet_catchBlock.
Qed.

(** X10.  Once [uploadFile] has settled, [uploading] is false unless the upload
    is paused. *)
Theorem component_uploadFile_clears_uploading (fuel : nat) (file : File)
    (w w' : World) :
  ModulesComponent.uploadFile fuel file w = (Ok tt, w') ->
  isPaused (comp w') = true \/ uploading (comp w') = false.
Proof.
  unfold ModulesComponent.uploadFile. unfold bind at 1. cbn [read].
  destruct (isPaused (comp w)) eqn:Hpaused.
  - intro H. injection H as <-. now left.
  - unfold bind at 1. cbn [update_comp update].
    unfold bind at 1. cbn [update_comp update].
    unfold try_finally.
    match goal with
    | |- context [match ?body ?w0 with _ => _ end] =>
        destruct (body w0) as [[[] | e |] w1]
    end; intro H; try discriminate.
    injection H as <-.
    destruct (isPaused (comp w1)) eqn:Hp; [now left | now right].
Qed.

Lemma component_uploadFile_clears_uploading_witness :
  isPaused (comp (snd (ModulesComponent.uploadFile 10 Scenario.video
                         (Scenario.startWorld Scenario.twoWaves)))) = true \/
  uploading (comp (snd (ModulesComponent.uploadFile 10 Scenario.video
                          (Scenario.startWorld Scenario.twoWaves)))) = false.
Proof.
  apply (component_uploadFile_clears_uploading 10 Scenario.video
           (Scenario.startWorld Scenario.twoWaves)).
  vm_compute. reflexivity.
Defined.

(** X11.  When the initiation is rejected, [uploadFile] sends nothing else, in
    particular no abort request; the error ends up in [errorMessage], and
    [uploading] is cleared unless the user paused meanwhile. *)
Theorem component_initiation_failure (fuel : nat) (file : File) (w : World)
    (reply : Reply InitiateUploadResponse)
    (rest : list (Reply InitiateUploadResponse)) (error : JsError) :
  isPaused (comp w) = false ->
  initiateQ (remote w) = reply :: rest ->
  answer reply = inl error ->
  exists w' : World,
    ModulesComponent.uploadFile fuel file w = (Ok tt, w') /\
    log (remote w')
    = log (remote w)
      ++ [CallInitiate (file_name file) (file_size file) VIDEOS
            (or_else (Some (file_type file)) "application/octet-stream")] /\
    errorMessage (comp w') = Some (errorText error) /\
    uploadState (comp w') = uploadState (comp w) /\
    (pausePressed reply = false -> uploading (comp w') = false).
Proof.
  intros Hpaused Hq Hanswer.
  destruct w as [[iq bq pq cq aq clk lg] [u pr em ip sf us] sv emitted wr].
  destruct reply as [el pp ans]. cbn in Hpaused, Hq, Hanswer. subst ip iq ans.
  unfold ModulesComponent.uploadFile, bind, read, update_comp, update,
    try_finally, attempt, FileUploadService.initiateFileUpload, await,
    ModulesComponent.catchBlock, ret.
  cbn. destruct pp; cbn; eexists; repeat split; discriminate.
Qed.

Lemma component_initiation_failure_witness :
  exists w' : World,
    ModulesComponent.uploadFile 10 Scenario.video
      (Scenario.startWorld
         (mkRemote [Scenario.fails Scenario.networkError] [] [] [] [] 0 []))
    = (Ok tt, w') /\
    errorMessage (comp w') = Some "Upload failed: Unknown Error"%string.
Proof.
  destruct (component_initiation_failure 10 Scenario.video
              (Scenario.startWorld
                 (mkRemote [Scenario.fails Scenario.networkError] [] [] [] [] 0 []))
              (Scenario.fails Scenario.networkError) [] Scenario.networkError
              eq_refl eq_refl eq_refl)
    as (w' & Hrun & _ & Hmessage & _).
  exists w'. split; [exact Hrun | exact Hmessage].
Defined.

(** X12.  When the initiation answers with an empty [uploadId], [uploadFile]
    stops there: no wave is requested and no abort is sent, and
    [errorMessage] reads [Upload ID is missing]. *)
Theorem component_missing_uploadId (fuel : nat) (file : File) (w : World)
    (reply : Reply InitiateUploadResponse)
    (rest : list (Reply InitiateUploadResponse))
    (initResponse : InitiateUploadResponse) :
  isPaused (comp w) = false ->
  initiateQ (remote w) = reply :: rest ->
  answer reply = inr initResponse ->
  uploadId initResponse = ""%string ->
  exists w' : World,
    ModulesComponent.uploadFile fuel file w = (Ok tt, w') /\
    log (remote w')
    = log (remote w)
      ++ [CallInitiate (file_name file) (file_size file) VIDEOS
            (or_else (Some (file_type file)) "application/octet-stream")] /\
    errorMessage (comp w') = Some "Upload ID is missing"%string.
Proof.
  intros Hpaused Hq Hanswer Hid.
  destruct w as [[iq bq pq cq aq clk lg] [u pr em ip sf us] sv emitted wr].
  destruct reply as [el pp ans].
  destruct initResponse as [id bk ok st hrs info].
  cbn in Hpaused, Hq, Hanswer, Hid. subst ip iq ans id.
  unfold ModulesComponent.uploadFile, bind, read, update_comp, update,
    try_finally, try_catch, attempt, FileUploadService.initiateFileUpload,
    await, ModulesComponent.afterInitiate, ModulesComponent.catchBlock,
    ret, throw.
  cbn. destruct pp, us; cbn; eexists; repeat split.
Qed.

Lemma component_missing_uploadId_witness :
  exists w' : World,
    ModulesComponent.uploadFile 10 Scenario.video
      (Scenario.startWorld
         (mkRemote [Scenario.settles (Scenario.session "")] [] [] [] [] 0 []))
    = (Ok tt, w') /\
    errorMessage (comp w') = Some "Upload ID is missing"%string.
Proof.
  destruct (component_missing_uploadId 10 Scenario.video
              (Scenario.startWorld
                 (mkRemote [Scenario.settles (Scenario.session "")]
                    [] [] [] [] 0 []))
              (Scenario.settles (Scenario.session "")) [] (Scenario.session "")
              eq_refl eq_refl eq_refl eq_refl)
    as (w' & Hrun & _ & Hmessage).
  exists w'. split; [exact Hrun | exact Hmessage].
Defined.

(** X13.  When the request for the first wave is rejected, [uploadFile] sends
    one abort request for the session and settles normally whether that
    abort succeeds or fails; the error of the wave request, not that of
    the abort, ends up in [errorMessage].  This holds paused or not. *)
Theorem component_first_wave_rejected (fuel : nat) (file : File) (w : World)
    (initiated : Reply InitiateUploadResponse)
    (initiations : list (Reply InitiateUploadResponse))
    (initResponse : InitiateUploadResponse)
    (rejected : Reply BatchUploadResponse)
    (waves : list (Reply BatchUploadResponse)) (error : JsError)
    (aborted : Reply unit) (aborts : list (Reply unit)) :
  isPaused (comp w) = false ->
  initiateQ (remote w) = initiated :: initiations ->
  answer initiated = inr initResponse ->
  uploadId initResponse <> ""%string ->
  batchQ (remote w) = rejected :: waves ->
  answer rejected = inl error ->
  abortQ (remote w) = aborted :: aborts ->
  exists w' : World,
    ModulesComponent.uploadFile fuel file w = (Ok tt, w') /\
    log (remote w')
    = log (remote w)
      ++ [CallInitiate (file_name file) (file_size file) VIDEOS
            (or_else (Some (file_type file)) "application/octet-stream");
          CallNextBatch (uploadId initResponse) [];
          CallAbort (uploadId initResponse)] /\
    errorMessage (comp w') = Some (errorText error).
Proof.
  intros Hpaused Hq Hanswer Hid Hbq Hrejected Haq.
  apply truthy_nonempty in Hid.
  destruct w as [[iq bq pq cq aq clk lg] [u pr em ip sf us] sv emitted wr].
  destruct initiated as [el1 pp1 ans1]. destruct rejected as [el2 pp2 ans2].
  destruct aborted as [el3 pp3 ans3].
  destruct initResponse as [id bk ok st hrs info].
  cbn in Hpaused, Hq, Hanswer, Hid, Hbq, Hrejected, Haq.
  subst ip iq ans1 bq ans2 aq.
  unfold ModulesComponent.uploadFile, bind, read, update_comp, update,
    try_finally, try_catch, attempt, FileUploadService.initiateFileUpload,
    FileUploadService.getNextBatchUrls, FileUploadService.abortUpload,
    await, ModulesComponent.afterInitiate, ModulesComponent.catchBlock,
    ret, throw.
  cbn -[truthy]. rewrite Hid.
  destruct pp1, us; cbn -[truthy]; rewrite ?Hid;
    destruct pp2; cbn -[truthy]; rewrite ?Hid;
    destruct ans3 as [abortError | []], pp3; cbn;
    eexists; (split; [reflexivity | split]); cbn;
    rewrite <- ?app_assoc; reflexivity.
Qed.

Lemma component_first_wave_rejected_witness :
  exists w' : World,
    ModulesComponent.uploadFile 10 Scenario.video
      (Scenario.startWorld
         (mkRemote [Scenario.settles (Scenario.session "U1")]
            [Scenario.fails (HttpErrorResponse (Some "quota exceeded"%string) "Forbidden")]
            [] [] [Scenario.fails Scenario.networkError] 0 []))
    = (Ok tt, w') /\
    errorMessage (comp w') = Some "Upload failed: quota exceeded"%string.
Proof.
  destruct (component_first_wave_rejected 10 Scenario.video
              (Scenario.startWorld
                 (mkRemote [Scenario.settles (Scenario.session "U1")]
                    [Scenario.fails
                       (HttpErrorResponse (Some "quota exceeded"%string) "Forbidden")]
                    [] [] [Scenario.fails Scenario.networkError] 0 []))
              (Scenario.settles (Scenario.session "U1")) []
              (Scenario.session "U1")
              (Scenario.fails
                 (HttpErrorResponse (Some "quota exceeded"%string) "Forbidden"))
              []
              (HttpErrorResponse (Some "quota exceeded"%string) "Forbidden")
              (Scenario.fails Scenario.networkError) []
              eq_refl eq_refl eq_refl ltac:(discriminate) eq_refl eq_refl eq_refl)
    as (w' & Hrun & _ & Hmessage).
  exists w'. split; [exact Hrun | exact Hmessage].
Defined.

(** X14.  Without a session ([uploadState] unset, or its [uploadId] unset or
    empty), [abortUpload] sends nothing to the remote and still resets
    the component. *)
Theorem abort_without_session (w : World) :
  match uploadState (comp w) with
  | None => True
  | Some us => us_uploadId us = None \/ us_uploadId us = Some ""%string
  end ->
  ModulesComponent.abortUpload w = (Ok tt, with_comp initialComponent w).
Proof.
  intro H. unfold ModulesComponent.abortUpload, bind, read.
  destruct (uploadState (comp w)) as [us |]; [| reflexivity].
  destruct H as [-> | ->]; reflexivity.
Qed.

Lemma abort_without_session_witness :
  ModulesComponent.abortUpload
    (snd (ModulesComponent.handleFileSelection Scenario.video
            (Scenario.startWorld Scenario.twoWaves)))
  = (Ok tt, Scenario.startWorld Scenario.twoWaves).
Proof.
  rewrite (abort_without_session
             (snd (ModulesComponent.handleFileSelection Scenario.video
                     (Scenario.startWorld Scenario.twoWaves))));
    [reflexivity | left; reflexivity].
Defined.

(* ===================================================================== *)
(** ** A wave of the component: what it sends and what it returns *)
(* ===================================================================== *)

Lemma countPuts_app (a b : list Call) :
  countPuts (a ++ b) = (countPuts a + countPuts b)%nat.
Proof. unfold countPuts. now rewrite filter_app, length_app. Qed.

Lemma countPuts_put (u : string) (b : Blob) (l : list Call) :
  countPuts (CallPut u b :: l) = S (countPuts l).
Proof. reflexivity. Qed.

Lemma countPuts_wait (delay : Z) (l : list Call) :
  countPuts (CallSetTimeout delay :: l) = countPuts l.
Proof. reflexivity. Qed.

Lemma uploadPart_log (u : string) (b : Blob) (w : World) :
  log (remote (snd (FileUploadService.uploadPart u b w)))
  = log (remote w) ++ [CallPut u b].
Proof.
  unfold FileUploadService.uploadPart, bind.
  pose proof (await_log (CallPut u b) putQ with_putQ w ltac:(reflexivity)) as H.
  destruct (await (CallPut u b) putQ with_putQ w) as [[response | e |] w1];
    exact H.
Qed.

Lemma Subseq_refl_nil {A : Type} (l : list A) : Subseq [] l.
Proof. induction l; constructor; assumption. Qed.

Section WaveFacts.

Variable file : File.
Variable partSizeBytes : Z.

Lemma retryLoop_facts (part : PresignedUrl) :
  forall (fuel : nat) (retryCount : Z) (success : bool)
         (current : list PartEtag) (w w' : World)
         (r : result (bool * list PartEtag)),
    ModulesComponent.retryLoop fuel file partSizeBytes part retryCount
      success current w = (r, w') ->
    (forall e, r <> Throw e) /\
    (forall (success' : bool) (etags : list PartEtag),
        r = Ok (success', etags) ->
        if success then etags = current
        else etags = current \/
             exists etag,
               etags = current ++ [mkPartEtag (pu_partNumber part) etag]) /\
    exists more : list Call,
      log (remote w') = log (remote w) ++ more /\
      Forall putOrWait more /\
      (countPuts more
       <= if success then 0
          else Z.to_nat (ModulesComponent.maxRetries - retryCount))%nat.
Proof.
  induction fuel as [| fuel IH]; intros retryCount success current w w' r Hrun;
    cbn [ModulesComponent.retryLoop] in Hrun.
  - injection Hrun as <- <-. split; [discriminate |]. split; [discriminate |].
    exists []. rewrite app_nil_r. repeat split; [constructor | cbn; lia].
  - destruct (Z.ltb_spec retryCount ModulesComponent.maxRetries) as [Hlt | Hge];
      cbn [andb] in Hrun; [destruct success; cbn [negb] in Hrun |].
    2: { unfold bind at 1 in Hrun. unfold try_catch in Hrun.
         unfold bind at 1 in Hrun.
         match type of Hrun with
         | context [FileUploadService.uploadPart ?u ?b w] =>
             pose proof (uploadPart_log u b w) as Hlog;
             destruct (FileUploadService.uploadPart u b w) as [[etag | e |] w1]
         end; cbn [snd] in Hlog.
         - cbn [ret] in Hrun.
           destruct (IH _ _ _ _ _ _ Hrun) as (Hq & Hres & more & Hmore & HP & Hn).
           split; [exact Hq |]. split.
           + intros s e H. right. exists etag. exact (Hres s e H).
           + eexists. rewrite Hmore, Hlog, <- app_assoc.
             split; [reflexivity |]. split.
             * constructor; [exact I | exact HP].
             * cbn [app]. rewrite countPuts_put. cbn iota in Hn.
               unfold ModulesComponent.maxRetries in *. lia.
         - unfold bind in Hrun.
           destruct (Z.ltb_spec (retryCount + 1) ModulesComponent.maxRetries);
             cbn [sleep update ret] in Hrun;
             destruct (IH _ _ _ _ _ _ Hrun)
               as (Hq & Hres & more & Hmore & HP & Hn);
             (split; [exact Hq |]); (split; [exact Hres |]);
             eexists; rewrite Hmore; cbn [remote with_remote log with_log
                                            with_clock];
             rewrite ?Hlog, <- ?app_assoc;
             (split; [reflexivity |]); split.
           + constructor; [exact I |]. constructor; [| exact HP].
             cbn. apply Z.le_min_r.
           + cbn [app]. rewrite countPuts_put, ?countPuts_wait. cbn iota in Hn.
             unfold ModulesComponent.maxRetries in *. lia.
           + constructor; [exact I | exact HP].
           + cbn [app]. rewrite countPuts_put, ?countPuts_wait. cbn iota in Hn.
             unfold ModulesComponent.maxRetries in *. lia.
         - injection Hrun as <- <-. split; [discriminate |].
           split; [discriminate |].
           exists [CallPut (url part)
                     (slice file ((pu_partNumber part - 1) * partSizeBytes)
                        (Z.min ((pu_partNumber part - 1) * partSizeBytes
                                + partSizeBytes) (file_size file))
                        (file_type file))].
           split; [exact Hlog |]. split; [constructor; [exact I | constructor] |].
           rewrite countPuts_put. change (countPuts []) with 0%nat.
           unfold ModulesComponent.maxRetries in *. lia. }
    + injection Hrun as <- <-. split; [discriminate |].
      split; [intros s e H; now injection H as _ <- |].
      exists []. rewrite app_nil_r. repeat split; [constructor | cbn; lia].
    + injection Hrun as <- <-. split; [discriminate |].
      split; [intros s e H; injection H as _ <-; destruct success; auto |].
      exists []. rewrite app_nil_r. repeat split; [constructor |].
      destruct success; cbn; lia.
Qed.

Lemma forEachPart_facts :
  forall (parts : list PresignedUrl) (current : list PartEtag) (w w' : World)
         (r : result (list PartEtag)),
    ModulesComponent.forEachPart file partSizeBytes parts current w = (r, w') ->
    (forall e, r <> Throw e) /\
    (forall etags,
        r = Ok etags ->
        exists receipts,
          etags = current ++ receipts /\
          Subseq (map pe_partNumber receipts) (map pu_partNumber parts)) /\
    exists more : list Call,
      log (remote w') = log (remote w) ++ more /\
      Forall putOrWait more /\
      (countPuts more <= 3 * List.length parts)%nat.
Proof.
  induction parts as [| part parts IH]; intros current w w' r Hrun;
    cbn [ModulesComponent.forEachPart] in Hrun.
  - injection Hrun as <- <-. split; [discriminate |]. split.
    + intros etags H. injection H as <-. exists [].
      rewrite app_nil_r. split; [reflexivity | constructor].
    + exists []. rewrite app_nil_r. repeat split; [constructor | cbn; lia].
  - unfold bind at 1 in Hrun.
    destruct (ModulesComponent.retryLoop _ file partSizeBytes part 0 false
                current w) as [r1 w1] eqn:Hloop.
    destruct (retryLoop_facts part _ _ _ _ _ _ _ Hloop)
      as (Hq1 & Hres1 & more1 & Hmore1 & HP1 & Hn1).
    destruct r1 as [[success etags1] | e |].
    + unfold bind at 1 in Hrun.
      destruct (updateUploadedSize_remote partSizeBytes success etags1 w1)
        as (w2 & Hupdate & Hremote).
      rewrite Hupdate in Hrun.
      destruct (IH _ _ _ _ Hrun) as (Hq & Hres & more & Hmore & HP & Hn).
      split; [exact Hq |]. split.
      * intros etags H. destruct (Hres etags H) as (receipts & -> & Hsub).
        destruct (Hres1 success etags1 eq_refl) as [-> | [etag ->]].
        -- exists receipts. split; [reflexivity |]. cbn [map].
           now constructor.
        -- exists (mkPartEtag (pu_partNumber part) etag :: receipts).
           rewrite <- app_assoc. split; [reflexivity |]. cbn [map].
           now constructor.
      * exists (more1 ++ more). rewrite Hmore, Hremote, Hmore1, app_assoc.
        split; [reflexivity |]. split; [now apply Forall_app |].
        rewrite countPuts_app. cbn [List.length].
        change (Z.to_nat (ModulesComponent.maxRetries - 0)) with 3%nat in Hn1.
        lia.
    + now destruct (Hq1 e).
    + injection Hrun as <- <-. split; [discriminate |].
      split; [discriminate |].
      exists more1. split; [exact Hmore1 |]. split; [exact HP1 |].
      change (Z.to_nat (ModulesComponent.maxRetries - 0)) with 3%nat in Hn1.
      cbn [List.length]. lia.
Qed.

End WaveFacts.

(** X15.  A wave of the component never rejects, whatever the remote answers:
    a part that cannot be stored is left out.  The receipts it returns
    are for requested parts, in the order requested, at most one per
    requested part. *)
Theorem component_wave_never_throws (file : File) (partSizeBytes : Z)
    (parts : list PresignedUrl) (w : World) :
  (forall e : JsError,
      fst (ModulesComponent.uploadBatch file partSizeBytes parts w) <> Throw e) /\
  (forall receipts : list PartEtag,
      fst (ModulesComponent.uploadBatch file partSizeBytes parts w) = Ok receipts ->
      Subseq (map pe_partNumber receipts) (map pu_partNumber parts)).
Proof.
  unfold ModulesComponent.uploadBatch.
  destruct (ModulesComponent.forEachPart file partSizeBytes parts [] w)
    as [r w'] eqn:Hrun.
  destruct (forEachPart_facts file partSizeBytes parts [] w w' r Hrun)
    as (Hq & Hres & _).
  split; [exact Hq |]. cbn [fst]. intros receipts H.
  destruct (Hres receipts H) as (rs & -> & Hsub). exact Hsub.
Qed.

Lemma component_wave_never_throws_witness :
  Subseq [1] [1; 2].
Proof.
  apply (proj2 (component_wave_never_throws Scenario.video 1000000
                  [Scenario.url1; Scenario.url2]
                  (Scenario.startWorld
                     (mkRemote [] []
                        [Scenario.settles (Scenario.stored "e1");
                         Scenario.fails Scenario.networkError;
                         Scenario.fails Scenario.networkError;
                         Scenario.fails Scenario.networkError]
                        [] [] 0 [])))
           [Scenario.receipt1]).
  vm_compute. reflexivity.
Defined.


(* ===================================================================== *)
(** ** The receipts the component hands to the remote only grow *)
(* ===================================================================== *)

Lemma growing_app (l1 l2 : list Call) :
  forall base : list PartEtag,
    growing base l1 ->
    growing (lastCarried base l1) l2 ->
    growing base (l1 ++ l2).
Proof.
  induction l1 as [| c l1 IH]; intros base H1 H2; [exact H2 |].
  cbn [app growing lastCarried] in *.
  destruct (carried c) as [receipts |].
  - destruct H1 as [Hext H1]. split; [exact Hext | now apply IH].
  - now apply IH.
Qed.

Lemma lastCarried_app (l1 l2 : list Call) :
  forall base : list PartEtag,
    lastCarried base (l1 ++ l2) = lastCarried (lastCarried base l1) l2.
Proof.
  induction l1 as [| c l1 IH]; intro base; [reflexivity |].
  cbn [app lastCarried]. destruct (carried c); apply IH.
Qed.

Lemma growing_without_receipts (l : list Call) (base : list PartEtag) :
  Forall (fun c => carried c = None) l ->
  growing base l /\ lastCarried base l = base.
Proof.
  induction 1 as [| c l Hc _ IH]; [split; reflexivity |].
  cbn [growing lastCarried]. now rewrite Hc.
Qed.

Lemma putOrWait_without_receipts (l : list Call) :
  Forall putOrWait l -> Forall (fun c => carried c = None) l.
Proof.
  intro H. eapply Forall_impl; [| exact H].
  intros [] Hc; cbn in *; (reflexivity || contradiction).
Qed.

Section ReceiptChain.

Variable file : File.
Variable partSizeBytes : Z.
Variable id : string.

Lemma waveLoop_growing :
  forall (fuel : nat) (complete : bool) (batch : BatchUploadResponse)
         (etags : list PartEtag) (w w' : World)
         (r : result ModulesComponent.LoopExit),
    ModulesComponent.waveLoop fuel file partSizeBytes id complete batch etags w
    = (r, w') ->
    exists more : list Call,
      log (remote w') = log (remote w) ++ more /\
      growing etags more /\
      forall etags',
        r = Ok (ModulesComponent.Finished etags') ->
        etags' = lastCarried etags more.
Proof.
  induction fuel as [| fuel IH]; intros complete batch etags w w' r Hrun;
    cbn [ModulesComponent.waveLoop] in Hrun.
  - injection Hrun as <- <-. exists []. rewrite app_nil_r.
    repeat split. discriminate.
  - unfold bind at 1 in Hrun. cbn [read] in Hrun.
    destruct (negb complete && negb (isPaused (comp w))).
    2: { injection Hrun as <- <-. exists []. rewrite app_nil_r.
         repeat split. intros etags' H. now injection H as <-. }
    unfold bind at 1 in Hrun. unfold try_catch in Hrun.
    unfold bind at 1 in Hrun. unfold ModulesComponent.uploadBatch in Hrun.
    destruct (ModulesComponent.forEachPart file partSizeBytes
                (presignedUrls batch) [] w) as [r1 w1] eqn:Hwave.
    destruct (forEachPart_facts _ _ _ _ _ _ _ Hwave)
      as (Hq1 & _ & more1 & Hmore1 & HP1 & _).
    apply putOrWait_without_receipts in HP1.
    destruct (growing_without_receipts more1 etags HP1) as [Hg1 Hl1].
    destruct r1 as [current | e1 |]; [| now destruct (Hq1 e1) |].
    + unfold bind at 1 in Hrun.
      pose proof (await_log (CallNextBatch id (etags ++ current)) batchQ
                    with_batchQ w1 ltac:(reflexivity)) as Hlog2.
      unfold FileUploadService.getNextBatchUrls in Hrun.
      destruct (await (CallNextBatch id (etags ++ current)) batchQ
                  with_batchQ w1) as [[batch' | e2 |] w2];
        cbn [snd] in Hlog2.
      * unfold bind at 1 in Hrun. cbn [update_comp update ret] in Hrun.
        destruct (IH _ _ _ _ _ _ Hrun) as (more & Hmore & Hg & Hlast).
        exists (more1 ++ CallNextBatch id (etags ++ current) :: more).
        cbn [remote with_comp] in Hmore.
        rewrite Hmore, Hlog2, Hmore1, <- !app_assoc.
        split; [reflexivity |]. split.
        -- apply growing_app; [exact Hg1 |]. rewrite Hl1.
           cbn [growing carried]. split; [now exists current | exact Hg].
        -- intros etags' H. rewrite lastCarried_app, Hl1.
           cbn [lastCarried carried]. now apply Hlast.
      * unfold bind at 1 in Hrun. cbn [read] in Hrun.
        exists (more1 ++ [CallNextBatch id (etags ++ current)]).
        assert (Hg : growing etags
                       (more1 ++ [CallNextBatch id (etags ++ current)])).
        { apply growing_app; [exact Hg1 |]. rewrite Hl1.
          cbn [growing carried]. split; [now exists current | exact I]. }
        destruct (isPaused (comp w2)); cbn [ret throw] in Hrun;
          injection Hrun as <- <-;
          rewrite Hlog2, Hmore1, <- app_assoc;
          (split; [reflexivity |]); (split; [exact Hg |]);
          intros etags' H; discriminate.
      * injection Hrun as <- <-.
        exists (more1 ++ [CallNextBatch id (etags ++ current)]).
        rewrite Hlog2, Hmore1, <- app_assoc. split; [reflexivity |]. split.
        -- apply growing_app; [exact Hg1 |]. rewrite Hl1.
           cbn [growing carried]. split; [now exists current | exact I].
        -- intros etags' H. discriminate.
    + injection Hrun as <- <-. exists more1.
      split; [exact Hmore1 |]. split; [exact Hg1 |].
      intros etags' H. discriminate.
Qed.

End ReceiptChain.

Lemma only_catchBlock (P : Call -> Prop) (uploadId : option string)
    (error : JsError) :
  (forall id, P (CallAbort id)) ->
  appendsOnly P (ModulesComponent.catchBlock uploadId error).
Proof.
  intro HP. apply only_bind; [apply only_update_comp |]. intros _.
  destruct uploadId as [id |]; [| apply only_ret].
  destruct (truthy id); [| apply only_ret].
  apply only_try_catch; [now apply only_await |].
  intros _. apply only_ret.
Qed.

Lemma resetUploadState_remote (w : World) :
  fst (ModulesComponent.resetUploadState w) = Ok tt /\
  remote (snd (ModulesComponent.resetUploadState w)) = remote w.
Proof. split; reflexivity. Qed.

Lemma afterInitiate_growing (fuel : nat) (file : File)
    (initResponse : InitiateUploadResponse) (w w' : World) (r : result unit) :
  ModulesComponent.afterInitiate fuel file initResponse w = (r, w') ->
  exists more : list Call,
    log (remote w') = log (remote w) ++ more /\ growing [] more.
Proof.
  unfold ModulesComponent.afterInitiate. intro Hrun.
  unfold bind at 1 in Hrun. cbn [update_comp update] in Hrun.
  unfold bind at 1 in Hrun. cbn [update_comp update] in Hrun.
  destruct (negb (truthy (uploadId initResponse))).
  { injection Hrun as <- <-. exists []. cbn. rewrite app_nil_r. now split. }
  unfold bind at 1 in Hrun.
  unfold FileUploadService.getNextBatchUrls in Hrun.
  match type of Hrun with
  | context [await ?c batchQ with_batchQ ?w0] =>
      pose proof (await_log c batchQ with_batchQ w0 ltac:(reflexivity)) as Hlog1;
      destruct (await c batchQ with_batchQ w0) as [[batch | e1 |] w1];
      cbn [snd remote with_comp] in Hlog1
  end.
  2, 3: injection Hrun as <- <-; eexists; split; [exact Hlog1 |];
        cbn; split; [now exists [] | exact I].
  unfold bind at 1 in Hrun.
  destruct (ModulesComponent.waveLoop fuel file _ _ false batch [] w1)
    as [r2 w2] eqn:Hloop.
  destruct (waveLoop_growing _ _ _ _ _ _ _ _ _ _ Hloop)
    as (more & Hmore & Hg & Hlast).
  assert (Hbase : growing [] (CallNextBatch (uploadId initResponse) [] :: more))
    by (cbn; split; [now exists [] | exact Hg]).
  destruct r2 as [[etags |] | e2 |].
  - unfold bind at 1 in Hrun. cbn [read] in Hrun.
    specialize (Hlast etags eq_refl).
    destruct (negb (isPaused (comp w2))).
    + unfold bind at 1 in Hrun.
      unfold FileUploadService.completeUpload in Hrun.
      match type of Hrun with
      | context [await ?c completeQ with_completeQ w2] =>
          pose proof (await_log c completeQ with_completeQ w2
                        ltac:(reflexivity)) as Hlog3;
          destruct (await c completeQ with_completeQ w2)
            as [[final | e3 |] w3];
          cbn [snd] in Hlog3
      end.
      1: destruct (resetUploadState_remote w3) as [_ Hreset];
         destruct (ModulesComponent.resetUploadState w3) as [r4 w4];
         cbn [snd] in Hreset.
      all: injection Hrun as <- <-; rewrite ?Hreset;
           exists ((CallNextBatch (uploadId initResponse) [] :: more)
                   ++ [CallComplete (uploadId initResponse) etags]);
           rewrite Hlog3, Hmore, Hlog1, <- !app_assoc;
           (split; [reflexivity |]);
           (apply growing_app; [exact Hbase |]);
           cbn [growing lastCarried carried]; rewrite <- Hlast;
           (split; [exists []; now rewrite app_nil_r | exact I]).
    + injection Hrun as <- <-. eexists.
      rewrite Hmore, Hlog1, <- app_assoc. split; [reflexivity | exact Hbase].
  - injection Hrun as <- <-. eexists.
    rewrite Hmore, Hlog1, <- app_assoc. split; [reflexivity | exact Hbase].
  - injection Hrun as <- <-. eexists.
    rewrite Hmore, Hlog1, <- app_assoc. split; [reflexivity | exact Hbase].
  - injection Hrun as <- <-. eexists.
    rewrite Hmore, Hlog1, <- app_assoc. split; [reflexivity | exact Hbase].
Qed.

(** X18.  In every run of the component's [uploadFile], whatever the remote
    answers and whenever the user pauses, the receipts handed to the
    remote never shrink: each request for a wave and the complete-upload
    request carry a list that extends the list of the request before. *)
Theorem component_receipts_only_grow (fuel : nat) (file : File) (w : World) :
  exists more : list Call,
    log (remote (snd (ModulesComponent.uploadFile fuel file w)))
    = log (remote w) ++ more /\
    growing [] more.
Proof.
  assert (Hquiet : forall c, (match c with CallAbort _ => True | _ => False end)
                             -> carried c = None)
    by (intros [] H; (reflexivity || contradiction)).
  unfold ModulesComponent.uploadFile. unfold bind at 1. cbn [read].
  destruct (isPaused (comp w)).
  { exists []. cbn. rewrite app_nil_r. now split. }
  unfold bind at 1. cbn [update_comp update].
  unfold bind at 1. cbn [update_comp update].
  rewrite try_finally_log
    by (intro w0; destruct (isPaused (comp w0)); reflexivity).
  unfold bind at 1. unfold attempt, FileUploadService.initiateFileUpload.
  match goal with
  | |- context [await ?c initiateQ with_initiateQ ?w0] =>
      pose proof (await_log c initiateQ with_initiateQ w0 ltac:(reflexivity))
        as Hlog1;
      destruct (await c initiateQ with_initiateQ w0)
        as [[initResponse | e1 |] w1];
      cbn [snd remote with_comp] in Hlog1
  end.
  - unfold try_catch.
    destruct (ModulesComponent.afterInitiate fuel file initResponse w1)
      as [r2 w2] eqn:Hafter.
    destruct (afterInitiate_growing _ _ _ _ _ _ Hafter) as (more & Hmore & Hg).
    destruct r2 as [[] | e2 |]; cbn [snd].
    + eexists. rewrite Hmore, Hlog1, <- app_assoc.
      split; [reflexivity | exact Hg].
    + destruct (only_catchBlock
                  (fun c => match c with CallAbort _ => True | _ => False end)
                  (Some (uploadId initResponse)) e2 ltac:(intro; exact I) w2)
        as (more' & Hmore' & HP').
      exists ((CallInitiate (file_name file) (file_size file) VIDEOS
                 (or_else (Some (file_type file)) "application/octet-stream")
               :: more) ++ more').
      rewrite Hmore', Hmore, Hlog1, <- !app_assoc.
      split; [reflexivity |].
      apply growing_app; [exact Hg |].
      apply growing_without_receipts.
      eapply Forall_impl; [exact Hquiet | exact HP'].
    + eexists. rewrite Hmore, Hlog1, <- app_assoc.
      split; [reflexivity | exact Hg].
  - destruct (only_catchBlock
                (fun c => match c with CallAbort _ => True | _ => False end)
                None e1 ltac:(intro; exact I) w1)
      as (more' & Hmore' & HP').
    eexists. rewrite Hmore', Hlog1, <- app_assoc. split; [reflexivity |].
    cbn [app growing carried]. apply growing_without_receipts.
    eapply Forall_impl; [exact Hquiet | exact HP'].
  - eexists. cbn [snd]. split; [exact Hlog1 | exact I].
Qed.

(* ===================================================================== *)
(** ** [UploadService]: a wave, and how [uploadFile] fails *)
(* ===================================================================== *)




(** X21.  When none of the requested parts has a chunk of its number, the wave
    of the service sends nothing and returns no receipt. *)
Theorem service_wave_missing_chunks (parts : list PresignedUrl)
    (chunks : list PartInfo) (w : World) :
  (forall part,
      In part parts ->
      find (fun c => partNumber c =? pu_partNumber part) chunks = None) ->
  UploadService.uploadBatch parts chunks w = (Ok [], w).
Proof.
  induction parts as [| part parts IH]; intro Hmissing; [reflexivity |].
  cbn [UploadService.uploadBatch]. unfold bind at 1, attempt.
  rewrite (Hmissing part (or_introl eq_refl)). cbn [throw].
  unfold bind. rewrite IH by (intros p Hp; apply Hmissing; now right).
  reflexivity.
Qed.

Lemma service_wave_missing_chunks_witness :
  UploadService.uploadBatch [Scenario.url1; Scenario.url3]
    [mkPartInfo 2 (mkBlob 1000000 2000000 "video/mp4")]
    (Scenario.startWorld Scenario.twoWaves)
  = (Ok [], Scenario.startWorld Scenario.twoWaves).
Proof.
  apply service_wave_missing_chunks.
  intros part [<- | [<- | []]]; reflexivity.
Defined.

Lemma find_chunk (file : File) (partSize n : Z) :
  forall (k : nat) (i : Z),
    find (fun c => partNumber c =? n)
      (map (chunkAt file partSize) (indices i k))
    = if (i + 1 <=? n) && (n <=? i + Z.of_nat k)
      then Some (chunkAt file partSize (n - 1))
      else None.
Proof.
  induction k as [| k IH]; intro i; cbn [indices map find].
  - destruct (Z.leb_spec (i + 1) n), (Z.leb_spec n (i + Z.of_nat 0));
      cbn; try reflexivity; lia.
  - cbn [chunkAt partNumber]. destruct (Z.eqb_spec (i + 1) n) as [<- | Hne].
    + replace (i + 1 - 1) with i by lia.
      destruct (Z.leb_spec (i + 1) (i + 1)), (Z.leb_spec (i + 1) (i + Z.of_nat (S k)));
        cbn; try reflexivity; lia.
    + rewrite IH.
      destruct (Z.leb_spec (i + 1 + 1) n), (Z.leb_spec n (i + 1 + Z.of_nat k)),
        (Z.leb_spec (i + 1) n), (Z.leb_spec n (i + Z.of_nat (S k)));
        cbn; try reflexivity; lia.
Qed.

(** X22.  The two orchestrators cut the file alike: for a part number in
    [1 .. ceil(fileSize / partSize)] the wave of the service, fed with
    the chunks of [splitFileIntoChunks], sends the byte range the
    component computes from the part number alone; for a part number
    outside that interval it sends nothing. *)
Theorem service_wave_uses_chunker_ranges (file : File) (partSize : Z)
    (fuel : nat) (chunks : list PartInfo) (part : PresignedUrl) (w : World) :
  0 < file_size file ->
  0 < partSize ->
  (Z.to_nat (ceil_div (file_size file) partSize) < fuel)%nat ->
  splitFileIntoChunks fuel file partSize = Ok chunks ->
  log (remote (snd (UploadService.uploadBatch [part] chunks w)))
  = log (remote w)
    ++ if (1 <=? pu_partNumber part)
          && (pu_partNumber part <=? ceil_div (file_size file) partSize)
       then [CallPut (url part)
               (partBlob file partSize (pu_partNumber part))]
       else [].
Proof.
  intros Hsize Hp Hfuel Hsplit.
  rewrite split_returns in Hsplit by (lia || exact Hfuel).
  injection Hsplit as <-.
  pose proof (ceil_div_bounds (file_size file) partSize Hp) as Hc.
  cbn [UploadService.uploadBatch]. unfold bind at 1, attempt.
  rewrite find_chunk. rewrite Z2Nat.id by nia. cbn [Z.add].
  destruct ((1 <=? pu_partNumber part)
            && (pu_partNumber part <=? ceil_div (file_size file) partSize))
    eqn:Hrange.
  - apply andb_prop in Hrange. destruct Hrange as [H1 H2].
    apply Z.leb_le in H1, H2.
    unfold try_catch, bind.
    rewrite chunkAt_inside by lia. cbn [blob].
    replace (pu_partNumber part - 1 + 1) with (pu_partNumber part) by lia.
    assert (Hblob : mkBlob ((pu_partNumber part - 1) * partSize)
                      (Z.min ((pu_partNumber part - 1) * partSize + partSize)
                         (file_size file)) (file_type file)
                    = partBlob file partSize (pu_partNumber part)).
    { unfold partBlob. rewrite slice_inside; [reflexivity | nia | lia]. }
    rewrite Hblob.
    pose proof (uploadPart_log (url part)
                  (partBlob file partSize (pu_partNumber part)) w) as Hlog.
    destruct (FileUploadService.uploadPart (url part)
                (partBlob file partSize (pu_partNumber part)) w)
      as [[etag | e |] w1]; exact Hlog.
  - cbn. now rewrite app_nil_r.
Qed.

Lemma service_wave_uses_chunker_ranges_witness :
  log (remote (snd (UploadService.uploadBatch [Scenario.url3]
                      [mkPartInfo 1 (mkBlob 0 1000000 "video/mp4");
                       mkPartInfo 2 (mkBlob 1000000 2000000 "video/mp4");
                       mkPartInfo 3 (mkBlob 2000000 2500000 "video/mp4")]
                      (Scenario.startWorld Scenario.twoWaves))))
  = [CallPut "https://s3/p3" (mkBlob 2000000 2500000 "video/mp4")].
Proof.
  exact (service_wave_uses_chunker_ranges Scenario.video 1000000 4
           [mkPartInfo 1 (mkBlob 0 1000000 "video/mp4");
            mkPartInfo 2 (mkBlob 1000000 2000000 "video/mp4");
            mkPartInfo 3 (mkBlob 2000000 2500000 "video/mp4")]
           Scenario.url3 (Scenario.startWorld Scenario.twoWaves)
           eq_refl eq_refl ltac:(vm_compute; lia) eq_refl).
Defined.



Section ServiceLog.

Variable P : Call -> Prop.
Hypothesis P_put : forall u b, P (CallPut u b).
Hypothesis P_batch : forall id etags, P (CallNextBatch id etags).

Lemma only_service_uploadBatch (chunks : list PartInfo) :
  forall parts : list PresignedUrl,
    appendsOnly P (UploadService.uploadBatch parts chunks).
Proof.
  induction parts as [| part parts IH]; cbn [UploadService.uploadBatch].
  - apply only_ret.
  - apply only_bind.
    + apply only_attempt. destruct (find _ chunks) as [chunk |].
      * apply only_try_catch; [| intro e; apply only_throw].
        apply only_bind; [| intro etag; apply only_ret].
        apply only_bind; [now apply only_await | intro r; apply only_lift].
      * apply only_throw.
    + intro settled. apply only_bind; [exact IH |]. intro others.
      apply only_ret.
Qed.

Lemma only_calculateProgress (uploadedSize : JS.number) (totalSize : Z) :
  appendsOnly P (UploadService.calculateProgress uploadedSize totalSize).
Proof.
  apply only_bind; [apply only_read |]. intro now.
  apply only_bind; [apply only_read |]. intro s.
  apply only_bind.
  - destruct (JS.gt _ _); [| apply only_ret].
    apply only_bind; [now apply only_update | intros _; apply only_ret].
  - intros [speed timeRemaining]. apply only_ret.
Qed.

Lemma only_service_waveLoop (file : File) (id : string)
    (chunks : list PartInfo) :
  forall (fuel : nat) (complete : bool) (batch : BatchUploadResponse)
         (prev : list PartEtag),
    appendsOnly P
      (UploadService.waveLoop fuel file id chunks complete batch prev).
Proof.
  induction fuel as [| fuel IH]; intros complete batch prev;
    cbn [UploadService.waveLoop].
  - apply only_lift.
  - destruct (negb complete); [| apply only_ret].
    apply only_bind; [apply only_service_uploadBatch |]. intro current.
    apply only_bind; [now apply only_await |]. intro batch'.
    apply only_bind; [apply only_calculateProgress |]. intro progress.
    apply only_bind; [now apply only_update |]. intros _.
    apply IH.
Qed.

End ServiceLog.

(** X24.  [uploadFile] of the service never sends an abort request: when it
    fails, the session it opened is left as it is on the remote. *)
Theorem service_uploadFile_never_aborts (fuel : nat) (file : File)
    (w : World) :
  exists more : list Call,
    log (remote (snd (UploadService.uploadFile fuel file w)))
    = log (remote w) ++ more /\
    Forall notAbort more.
Proof.
  revert w. change (appendsOnly notAbort (UploadService.uploadFile fuel file)).
  apply only_bind; [apply only_read |]. intro now.
  apply only_bind; [now apply only_update |]. intros _.
  apply only_try_catch.
  - apply only_bind; [now apply only_await |]. intro initResponse.
    apply only_bind; [apply only_lift |]. intro chunks.
    apply only_bind; [now apply only_await |]. intro batch.
    apply only_bind.
    + apply only_service_waveLoop; intros; exact I.
    + intro prev. apply only_bind; [now apply only_await |].
      intro final. apply only_ret.
  - intros [bodyMessage statusText | message |]; apply only_throw.
Qed.

(* ===================================================================== *)
(** ** The progress trackers and the clock *)
(* ===================================================================== *)

Lemma elapsed_positive (d : Z) :
  JS.gt (JS.div (JS.of_Z d) (JS.of_Z 1000)) (JS.of_Z 0) = (0 <? d).
Proof.
  rewrite (div_by_integer (inject_Z d) 1000 eq_refl
           : JS.div (JS.of_Z d) _ = _).
  unfold JS.gt, JS.lt, JS.of_Z, JS.Qlt_bool.
  destruct (Z.ltb_spec 0 d) as [Hpos | Hle].
  - apply negb_true_iff, not_true_is_false. intro H.
    apply Qle_bool_iff in H.
    assert (Hd : (inject_Z (0 * 1000) < inject_Z d)%Q)
      by (rewrite <- Zlt_Qlt; lia).
    pose proof (Qlt_shift_div_l _ _ _ (inject_Z_pos 1000 eq_refl)
                  (eq_ind _ (fun x => (x < inject_Z d)%Q) Hd _
                     (inject_Z_mult 0 1000))) as Hlt.
    exact (Qlt_not_le _ _ Hlt H).
  - apply negb_false_iff, Qle_bool_iff.
    apply Qle_shift_div_r; [now apply inject_Z_pos |].
    rewrite <- inject_Z_mult, <- Zle_Qle. lia.
Qed.



Lemma updateProgress_idle (now : Z) (uploadedSize : JS.number)
    (panel : ProgressPanel) :
  panel_uploadState panel = None \/ now <= panel_lastUpdateTime panel ->
  updateProgress now uploadedSize panel = panel.
Proof.
  unfold updateProgress.
  intros [Hnone | Htime]; [now rewrite Hnone |].
  destruct (panel_uploadState panel); [| reflexivity].
  rewrite elapsed_positive.
  now replace (0 <? now - panel_lastUpdateTime panel) with false
    by (symmetry; apply Z.ltb_ge; lia).
Qed.

Lemma updateProgress_recorded (now : Z) (uploadedSize : JS.number)
    (panel : ProgressPanel) (state : PanelUploadState) :
  panel_uploadState panel = Some state ->
  panel_lastUpdateTime panel < now ->
  panel_lastUpdateTime (updateProgress now uploadedSize panel) = now.
Proof.
  intros Hstate Htime. unfold updateProgress.
  rewrite Hstate, elapsed_positive.
  now replace (0 <? now - panel_lastUpdateTime panel) with true
    by (symmetry; apply Z.ltb_lt; lia).
Qed.

(** X4.  [updateProgress] of the progress panel does nothing at all, and
    emits nothing, when the panel has no [uploadState] or when the clock
    has not moved past the last update; otherwise it emits exactly one
    event, whose state carries the new size, and records time and
    size. *)
Theorem updateProgress_needs_state_and_time (now : Z)
    (uploadedSize : JS.number) (panel : ProgressPanel) :
  (panel_uploadState panel = None \/ now <= panel_lastUpdateTime panel ->
   updateProgress now uploadedSize panel = panel) /\
  (forall state,
      panel_uploadState panel = Some state ->
      panel_lastUpdateTime panel < now ->
      exists percent state',
        updateProgress now uploadedSize panel
        = mkProgressPanel (Some state') now uploadedSize
            (progressUpdate panel ++ [(percent, state')]) /\
        panel_uploadedSize state' = uploadedSize /\
        panel_fileSize state' = panel_fileSize state /\
        panel_fileName state' = panel_fileName state /\
        panel_uploadId state' = panel_uploadId state /\
        percent
        = JS.mul (JS.div uploadedSize (panel_fileSize state)) (JS.of_Z 100)).
Proof.
  split; [apply updateProgress_idle |]. unfold updateProgress.
  - intros state Hstate Htime. rewrite Hstate, elapsed_positive.
    replace (0 <? now - panel_lastUpdateTime panel) with true
      by (symmetry; apply Z.ltb_lt; lia).
    do 2 eexists. repeat split.
Qed.

Lemma updateProgress_needs_state_and_time_witness :
  updateProgress 5000 (JS.of_Z 10)
    (mkProgressPanel None 0 (JS.of_Z 0) [])
  = mkProgressPanel None 0 (JS.of_Z 0) [].
Proof.
  apply (proj1 (updateProgress_needs_state_and_time 5000 (JS.of_Z 10)
                  (mkProgressPanel None 0 (JS.of_Z 0) []))).
  left. reflexivity.
Defined.

(** X5.  Two calls of [updateProgress] at the same instant: the second one
    is dropped, even when it reports another size. *)
Theorem updateProgress_same_instant_dropped (now : Z)
    (first second : JS.number) (panel : ProgressPanel) :
  updateProgress now second (updateProgress now first panel)
  = updateProgress now first panel.
Proof.
  destruct (panel_uploadState panel) as [state |] eqn:Hstate.
  - destruct (Z.le_gt_cases now (panel_lastUpdateTime panel)) as [Hle | Hgt].
    + rewrite (updateProgress_idle now first panel (or_intror Hle)).
      apply updateProgress_idle. now right.
    + apply updateProgress_idle. right.
      rewrite (updateProgress_recorded now first panel state Hstate) by lia.
      lia.
  - rewrite (updateProgress_idle now first panel (or_introl Hstate)).
    apply updateProgress_idle. now left.
Qed.

(* ===================================================================== *)
(** ** [formatSpeed] *)
(* ===================================================================== *)

Lemma ge_1024 (x : Q) :
  JS.ge (JS.Fin x) (JS.of_Z 1024) = Qle_bool (inject_Z 1024) x.
Proof. reflexivity. Qed.

Lemma scaled_ge (q : Q) (c : Z) :
  (inject_Z (c * 1024) <= q)%Q ->
  Qle_bool (inject_Z c) (q / inject_Z 1024) = true.
Proof.
  intro H. apply Qle_bool_iff.
  apply Qle_shift_div_l; [now apply inject_Z_pos |].
  now rewrite <- inject_Z_mult.
Qed.

Lemma scaled_lt (q : Q) (c : Z) :
  (q < inject_Z (c * 1024))%Q ->
  Qle_bool (inject_Z c) (q / inject_Z 1024) = false.
Proof.
  intro H. apply not_true_is_false. intro E. apply Qle_bool_iff in E.
  assert (Hlt : (q / inject_Z 1024 < inject_Z c)%Q).
  { apply Qlt_shift_div_r; [now apply inject_Z_pos |].
    now rewrite <- inject_Z_mult. }
  exact (Qlt_not_le _ _ Hlt E).
Qed.

(** X2.  [formatSpeed] on a finite rate: the rate is divided by 1024 as long
    as it is at least 1024, three times at most, so that the unit is [B]
    below 1024, [KB] below 1024^2, [MB] below 1024^3 and [GB] from there
    on, however large the rate. *)
Theorem formatSpeed_units (q : Q) :
  ((q < inject_Z 1024)%Q ->
   formatSpeed (JS.Fin q) = (JS.toFixed1 (JS.Fin q) ++ " B")%string) /\
  ((inject_Z 1024 <= q)%Q -> (q < inject_Z 1048576)%Q ->
   formatSpeed (JS.Fin q)
   = (JS.toFixed1 (JS.Fin (q / inject_Z 1024)) ++ " KB")%string) /\
  ((inject_Z 1048576 <= q)%Q -> (q < inject_Z 1073741824)%Q ->
   formatSpeed (JS.Fin q)
   = (JS.toFixed1 (JS.Fin (q / inject_Z 1024 / inject_Z 1024)) ++ " MB")%string) /\
  ((inject_Z 1073741824 <= q)%Q ->
   formatSpeed (JS.Fin q)
   = (JS.toFixed1
        (JS.Fin (q / inject_Z 1024 / inject_Z 1024 / inject_Z 1024))
      ++ " GB")%string).
Proof.
  unfold formatSpeed, units. cbn [formatSpeedLoop].
  rewrite ge_1024.
  split; [| split; [| split]].
  - intro H.
    replace (Qle_bool (inject_Z 1024) q) with false; [reflexivity |].
    symmetry. apply not_true_is_false. intro E. apply Qle_bool_iff in E.
    exact (Qlt_not_le _ _ H E).
  - intros Hlo Hhi.
    replace (Qle_bool (inject_Z 1024) q) with true
      by (symmetry; now apply Qle_bool_iff).
    rewrite div_by_integer, ge_1024 by reflexivity.
    now rewrite (scaled_lt q 1024 Hhi).
  - intros Hlo Hhi.
    assert (H1 : (inject_Z 1024 <= q)%Q)
      by (apply Qle_trans with (inject_Z 1048576); [discriminate | exact Hlo]).
    replace (Qle_bool (inject_Z 1024) q) with true
      by (symmetry; now apply Qle_bool_iff).
    rewrite div_by_integer, ge_1024 by reflexivity.
    rewrite (scaled_ge q 1024 Hlo).
    rewrite div_by_integer, ge_1024 by reflexivity.
    assert (H2 : (q / inject_Z 1024 < inject_Z (1024 * 1024))%Q).
    { apply Qlt_shift_div_r; [now apply inject_Z_pos |].
      now rewrite <- inject_Z_mult. }
    now rewrite (scaled_lt _ 1024 H2).
  - intro Hlo.
    assert (H1 : (inject_Z 1024 <= q)%Q)
      by (apply Qle_trans with (inject_Z 1073741824); [discriminate | exact Hlo]).
    assert (H2 : (inject_Z (1024 * 1024) <= q)%Q)
      by (apply Qle_trans with (inject_Z 1073741824); [discriminate | exact Hlo]).
    replace (Qle_bool (inject_Z 1024) q) with true
      by (symmetry; now apply Qle_bool_iff).
    rewrite div_by_integer, ge_1024 by reflexivity.
    rewrite (scaled_ge q 1024 H2).
    rewrite div_by_integer, ge_1024 by reflexivity.
    assert (H3 : (inject_Z (1024 * 1024) <= q / inject_Z 1024)%Q).
    { apply Qle_shift_div_l; [now apply inject_Z_pos |].
      now rewrite <- inject_Z_mult. }
    rewrite (scaled_ge _ 1024 H3).
    now rewrite div_by_integer by reflexivity.
Qed.

Lemma formatSpeed_units_witness :
  formatSpeed (JS.Fin (inject_Z 5000000000000))
  = (JS.toFixed1
       (JS.Fin (inject_Z 5000000000000 / inject_Z 1024 / inject_Z 1024
                / inject_Z 1024)) ++ " GB")%string /\
  formatSpeed (JS.Fin (inject_Z 5000000000000)) = "4656.6 GB"%string.
Proof.
  split.
  - apply (proj2 (proj2 (proj2 (formatSpeed_units (inject_Z 5000000000000))))).
    discriminate.
  - vm_compute. reflexivity.
Defined.

(* ===================================================================== *)
(** ** [getFileType] *)
(* ===================================================================== *)

Lemma lower_dot (c : ascii) :
  Ascii.eqb (lower c) "."%char = Ascii.eqb c "."%char.
Proof. destruct c as [[] [] [] [] [] [] [] []]; reflexivity. Qed.

Lemma lower_idempotent (c : ascii) : lower (lower c) = lower c.
Proof. destruct c as [[] [] [] [] [] [] [] []]; reflexivity. Qed.

Lemma toLowerCase_idempotent (s : string) :
  toLowerCase (toLowerCase s) = toLowerCase s.
Proof.
  induction s as [| c s IH]; [reflexivity |].
  cbn [toLowerCase]. now rewrite lower_idempotent, IH.
Qed.

Lemma split_nonempty (s : string) : String_split "."%char s <> [].
Proof.
  destruct s as [| c s]; cbn [String_split]; [discriminate |].
  destruct (Ascii.eqb c "."%char); [discriminate |].
  destruct (String_split "."%char s); discriminate.
Qed.

Lemma split_noDot (s : string) :
  noDot s = true -> String_split "."%char s = [s].
Proof.
  induction s as [| c s IH]; [reflexivity |]. cbn [noDot String_split].
  intro H. apply andb_prop in H. destruct H as [Hc Hs].
  apply negb_true_iff in Hc. now rewrite Hc, IH.
Qed.

Lemma pop_cons (piece : string) (pieces : list string) :
  pieces <> [] -> pop (piece :: pieces) = pop pieces.
Proof. destruct pieces; [congruence | reflexivity]. Qed.

Lemma pop_split_extension (ext : string) :
  noDot ext = true ->
  forall prefix : string,
    pop (String_split "."%char (prefix ++ String "."%char ext)) = Some ext.
Proof.
  intros Hext prefix. induction prefix as [| c prefix IH].
  - cbn [append String_split]. rewrite Ascii.eqb_refl.
    now rewrite (split_noDot ext Hext).
  - cbn [append String_split].
    pose proof (split_nonempty (prefix ++ String "."%char ext)) as Hne.
    assert (Htwo : forall first rest,
               String_split "."%char (prefix ++ String "."%char ext)
               = first :: rest -> rest <> []).
    { clear IH Hne. induction prefix as [| d prefix IHp]; intros first rest.
      - cbn [append String_split]. rewrite Ascii.eqb_refl.
        rewrite (split_noDot ext Hext). intro H. injection H as _ <-.
        discriminate.
      - cbn [append String_split].
        destruct (Ascii.eqb d "."%char).
        + intro H. injection H as _ <-. apply split_nonempty.
        + destruct (String_split "."%char (prefix ++ String "."%char ext))
            as [| p ps] eqn:Hsplit;
            [exfalso; exact (split_nonempty _ Hsplit) |].
          intro H. injection H as _ <-. exact (IHp p ps eq_refl). }
    destruct (Ascii.eqb c "."%char).
    + now rewrite pop_cons.
    + destruct (String_split "."%char (prefix ++ String "."%char ext))
        as [| first rest] eqn:Hsplit; [congruence |].
      specialize (Htwo first rest eq_refl).
      rewrite pop_cons by exact Htwo. now rewrite pop_cons in IH.
Qed.

Lemma split_toLowerCase (s : string) :
  String_split "."%char (toLowerCase s)
  = map toLowerCase (String_split "."%char s).
Proof.
  induction s as [| c s IH]; [reflexivity |].
  cbn [toLowerCase String_split]. rewrite lower_dot, IH.
  destruct (Ascii.eqb c "."%char); [reflexivity |].
  destruct (String_split "."%char s); reflexivity.
Qed.

Lemma pop_map (f : string -> string) (pieces : list string) :
  pop (map f pieces) = option_map f (pop pieces).
Proof.
  induction pieces as [| p [| q pieces] IH]; [reflexivity | reflexivity |].
  exact IH.
Qed.

Lemma extension_toLowerCase (name : string) :
  option_map toLowerCase (pop (String_split "."%char (toLowerCase name)))
  = option_map toLowerCase (pop (String_split "."%char name)).
Proof.
  rewrite split_toLowerCase, pop_map.
  destruct (pop (String_split "."%char name)); [| reflexivity].
  cbn. now rewrite toLowerCase_idempotent.
Qed.

Lemma getFileType_after_dot (prefix ext : string) :
  noDot ext = true ->
  getFileType (prefix ++ String "."%char ext) = getFileType ext.
Proof.
  intro Hext. unfold getFileType.
  now rewrite (pop_split_extension ext Hext prefix), (split_noDot ext Hext).
Qed.

(** X6.  [getFileType] looks at nothing but the text after the last dot, and
    at that without regard to case; a name without a dot is taken as its
    own extension. *)
Theorem getFileType_extension_only :
  (forall name : string, getFileType (toLowerCase name) = getFileType name) /\
  (forall prefix ext : string,
      noDot ext = true ->
      getFileType (prefix ++ String "."%char ext) = getFileType ext).
Proof.
  split.
  - intro name. unfold getFileType. now rewrite extension_toLowerCase.
  - exact getFileType_after_dot.
Qed.

Lemma getFileType_extension_only_witness :
  getFileType "Holiday.Photos.2024.PNG" = StringValue "image/png" /\
  getFileType "png" = StringValue "image/png".
Proof.
  destruct getFileType_extension_only as [Hcase Hext].
  split.
  - change "Holiday.Photos.2024.PNG"%string
      with ("Holiday.Photos.2024" ++ String "."%char "PNG")%string.
    rewrite (Hext "Holiday.Photos.2024"%string "PNG"%string eq_refl).
    rewrite <- (Hcase "PNG"%string). reflexivity.
  - reflexivity.
Defined.

(** X7.  [getFileType] is declared to return a string, but the [in] test also
    finds what every object inherits: for the extensions [constructor]
    and [__proto__], in any case and after any prefix, it returns the
    inherited member; these two are the only extensions for which the
    result is not a string. *)
Theorem getFileType_inherited_members :
  (forall name key : string,
      getFileType name = InheritedValue key ->
      key = "constructor"%string \/ key = "__proto__"%string) /\
  (forall prefix : string,
      getFileType (prefix ++ ".constructor")%string
      = InheritedValue "constructor" /\
      getFileType (prefix ++ ".__proto__")%string
      = InheritedValue "__proto__").
Proof.
  split.
  - intros name key. unfold getFileType.
    destruct (pop (String_split "."%char name)) as [raw |]; cbn [option_map];
      [| discriminate].
    destruct (negb (truthy (toLowerCase raw))); [discriminate |].
    destruct (ownProperty (toLowerCase raw) mimeTypes); [discriminate |].
    destruct (existsb (String.eqb (toLowerCase raw)) objectPrototypeKeys)
      eqn:Hin; [| discriminate].
    intro H. injection H as <-.
    pose proof (toLowerCase_idempotent raw) as Hidem.
    apply existsb_exists in Hin. destruct Hin as (k & Hk & Heq).
    apply String.eqb_eq in Heq. rewrite Heq in Hidem |- *.
    cbn in Hk.
    repeat (destruct Hk as [<- | Hk];
            [first [now left | now right
                   | exfalso; vm_compute in Hidem; discriminate Hidem] |]).
    contradiction.
  - intro prefix. split.
    + change (prefix ++ ".constructor")%string
        with (prefix ++ String "."%char "constructor")%string.
      now rewrite (getFileType_after_dot prefix "constructor"%string eq_refl).
    + change (prefix ++ ".__proto__")%string
        with (prefix ++ String "."%char "__proto__")%string.
      now rewrite (getFileType_after_dot prefix "__proto__"%string eq_refl).
Qed.

Lemma getFileType_inherited_members_witness :
  getFileType "report.Constructor" = InheritedValue "constructor" /\
  ("constructor"%string = "constructor"%string \/
   "constructor"%string = "__proto__"%string).
Proof.
  assert (H : getFileType "report.Constructor" = InheritedValue "constructor")
    by reflexivity.
  split; [exact H |].
  exact (proj1 getFileType_inherited_members "report.Constructor"%string
           "constructor"%string H).
Defined.

Lemma or_else_truthy (a : option string) (b : string) :
  truthy b = true -> truthy (or_else a b) = true.
Proof.
  intro Hb. unfold or_else. destruct a as [s |]; [| exact Hb].
  destruct (truthy s) eqn:Hs; [exact Hs | exact Hb].
Qed.

(** X8.  Both orchestrators hand [initiateFileUpload] the type of the file
    or, when that is empty, [application/octet-stream]; as this is never
    empty, the request carries it as it is and the extension of the file
    name is never looked at.  Only a caller that passes no content type,
    or an empty one, gets the type guessed from the name. *)
Theorem content_type_never_guessed (file : File) (fileName : string) :
  requestContentType
    (Some (or_else (Some (file_type file)) "application/octet-stream"))
    fileName
  = StringValue (if truthy (file_type file) then file_type file
                 else "application/octet-stream"%string) /\
  requestContentType None fileName = getFileType fileName /\
  requestContentType (Some ""%string) fileName = getFileType fileName.
Proof.
  split; [| split; reflexivity].
  unfold requestContentType.
  now rewrite (or_else_truthy (Some (file_type file))
                 "application/octet-stream" eq_refl).
Qed.

(* ===================================================================== *)
(** ** Instances of the general lemmas above *)
(* ===================================================================== *)

Lemma split_zero_partSize_diverges_witness :
  splitFileIntoChunks 1000 Scenario.video 0 = Pending.
Proof.
  apply (split_zero_partSize_diverges Scenario.video 1000). reflexivity.
Defined.

Lemma uploadedSize_grows_within_wave_witness :
  exists new : list Z,
    uploadedSizeWrites
      (snd (ModulesComponent.uploadBatch Scenario.video 1000000
              [Scenario.url1; Scenario.url2]
              (snd (ModulesComponent.handleFileSelection Scenario.video
                      (Scenario.startWorld Scenario.twoWaves)))))
    = [] ++ new /\
    nondecreasing new.
Proof.
  apply (uploadedSize_grows_within_wave Scenario.video 1000000).
  discriminate.
Defined.

Lemma resume_always_reinitiates_witness :
  exists more : list Call,
    log (remote (snd (ModulesComponent.resumeUpload 10
                        (snd (ModulesComponent.handleFileSelection
                                Scenario.video
                                (Scenario.startWorld Scenario.twoWaves))))))
    = [] ++ CallInitiate "lecture.mp4" 2500000 VIDEOS
              (or_else (Some "video/mp4"%string) "application/octet-stream")
         :: CallNextBatch "U1" [] :: more.
Proof.
  apply (resume_always_reinitiates 10
           (snd (ModulesComponent.handleFileSelection Scenario.video
                   (Scenario.startWorld Scenario.twoWaves)))
           Scenario.video (Scenario.settles (Scenario.session "U1")) []
           (Scenario.session "U1"));
    [reflexivity | reflexivity | reflexivity | discriminate].
Defined.
